(** * Voice translation: the hook [useVoiceTranslation] and its two services

    A shallow embedding of
    - [src/services/translationService.ts] (module [TranslationService]),
    - [src/services/speechService.ts]      (module [SpeechService]),
    - [src/hooks/useVoiceTranslation.ts]   (module [Hook]).

    The browser (speech recognition engine, speech synthesis, the network) is
    the environment: what it answers arrives as an [input] of the step
    function, next to the calls the hook's client makes.  Every effect the
    code performs (a state setter, a callback, a toast, a call into the
    platform) is appended to a log in program order.  Where a method of
    the platform may throw ([recognition.start()]), the input that stands
    for the call says which of the two it did. *)

From Stdlib Require Import List Bool Arith NArith ZArith QArith Lia.
From Stdlib Require Import Ascii String DecimalString.
Import ListNotations.

Local Open Scope list_scope.

(** ** JavaScript strings

    A JavaScript string is a sequence of UTF-16 code units. *)

Definition jsstring := list N.

Definition js (s : string) : jsstring :=
  map N_of_ascii (list_ascii_of_string s).

Definition jsstring_eqb (a b : jsstring) : bool :=
  if list_eq_dec N.eq_dec a b then true else false.

(** [WhiteSpace] and [LineTerminator] of ECMAScript, the code units
    [String.prototype.trim] strips. *)
Definition is_whitespace (c : N) : bool :=
  ((9 <=? c) && (c <=? 13) || (c =? 32) || (c =? 160) || (c =? 5760)
   || (8192 <=? c) && (c <=? 8202) || (c =? 8232) || (c =? 8233)
   || (c =? 8239) || (c =? 8287) || (c =? 12288) || (c =? 65279))%N.

Fixpoint trimStart (s : jsstring) : jsstring :=
  match s with
  | c :: s' => if is_whitespace c then trimStart s' else s
  | [] => []
  end.

Definition trimEnd (s : jsstring) : jsstring := rev (trimStart (rev s)).

Definition trim (s : jsstring) : jsstring := trimEnd (trimStart s).

(** Truthiness of a string: every string but the empty one. *)
Definition truthy_string (s : jsstring) : bool :=
  match s with [] => false | _ :: _ => true end.

Definition decimal (n : N) : jsstring :=
  js (NilEmpty.string_of_uint (N.to_uint n)).

(** ** Numbers

    The only numbers the code computes with are confidences: the capture
    confidence (a finite [float] attribute of the recognition alternative)
    and the two literals [0.95] and [0].  Finite floats are rationals and
    [Math.min] only compares, so they are modelled in [Q]. *)

Definition Math_min (a b : Q) : Q := if Qle_bool a b then a else b.

(** [x || d] on a number that may be missing: [undefined] and [0] are falsy. *)
Definition number_or (x : option Q) (d : Q) : Q :=
  match x with
  | Some q => if Qeq_bool q 0 then d else q
  | None => d
  end.

(** [x || d] on a string. *)
Definition string_or (x d : jsstring) : jsstring :=
  if truthy_string x then x else d.

(** ** JSON values, as [response.json()] produces them *)

#[warnings="-register-all"]
Inductive json : Type :=
| JNull
| JBool (b : bool)
| JNum (q : Q)
| JStr (s : jsstring)
| JArr (items : list json)
| JObj (fields : list (jsstring * json)).

(** A JavaScript value read out of such data: [None] is [undefined]. *)
Definition jsvalue := option json.

(** [JSON.parse] keeps the last binding of a repeated key. *)
Fixpoint lookup (k : jsstring) (fields : list (jsstring * json)) : jsvalue :=
  match fields with
  | [] => None
  | (k', v) :: rest =>
      match lookup k rest with
      | Some w => Some w
      | None => if jsstring_eqb k k' then Some v else None
      end
  end.

Inductive key : Type :=
| Name (s : jsstring)
| Index (n : nat).

(** [v.name] and [v[n]] on a value that is neither [null] nor [undefined].
    The names read by the code ([candidates], [content], [parts], [text],
    [apiKey]) are on no prototype, so only own properties matter. *)
Definition member (k : key) (v : json) : jsvalue :=
  match v, k with
  | JObj fields, Name s => lookup s fields
  | JObj fields, Index n => lookup (decimal (N.of_nat n)) fields
  | JArr items, Index n => nth_error items n
  | JArr items, Name s =>
      if jsstring_eqb s (js "length")
      then Some (JNum (inject_Z (Z.of_nat (List.length items)))) else None
  | JStr s, Index n =>
      match nth_error s n with Some c => Some (JStr [c]) | None => None end
  | JStr s, Name s' =>
      if jsstring_eqb s' (js "length")
      then Some (JNum (inject_Z (Z.of_nat (List.length s)))) else None
  | _, _ => None
  end.

(** ** Exceptions *)

Inductive js_error : Type :=
| Error (message : jsstring)      (* [new Error(message)] *)
| TypeError                       (* raised by the engine *)
| SyntaxError                     (* [response.json()] on a malformed body *)
| NetworkFailure.                 (* [fetch] rejected *)

Inductive completion (A : Type) : Type :=
| Normal (a : A)
| Throw (e : js_error).

Arguments Normal {A} a.
Arguments Throw {A} e.

Definition bind {A B} (c : completion A) (k : A -> completion B)
  : completion B :=
  match c with
  | Normal a => k a
  | Throw e => Throw e
  end.

Notation "x <- c ;; k" := (bind c (fun x => k))
  (at level 61, c at next level, right associativity).

Notation "c ;;; k" := (bind c (fun _ => k))
  (at level 61, right associativity).

(** [v.name] with a plain dot: a [TypeError] on [null]. *)
Definition dot (k : key) (v : json) : completion jsvalue :=
  match v with
  | JNull => Throw TypeError
  | _ => Normal (member k v)
  end.

(** [v?.name]: [undefined] on [null] and [undefined]. *)
Definition opt_dot (k : key) (v : jsvalue) : jsvalue :=
  match v with
  | None | Some JNull => None
  | Some x => member k x
  end.

(** [v?.trim()]: skipped on [null] and [undefined]; a string is trimmed;
    on anything else [trim] is not a function. *)
Definition opt_trim (v : jsvalue) : completion (option jsstring) :=
  match v with
  | None | Some JNull => Normal None
  | Some (JStr s) => Normal (Some (trim s))
  | Some _ => Throw TypeError
  end.

(** [`${v}`] converts [v] to a string.  On a value read out of parsed JSON
    the conversion throws a [TypeError] exactly on an object with a
    property [toString] of its own (what JSON holds is not callable, and
    [valueOf] returns the object itself), and on an array with such an
    element: [join] converts every element but [null]. *)
Fixpoint to_string_throws (v : json) : bool :=
  match v with
  | JObj fields =>
      match lookup (js "toString") fields with
      | Some _ => true
      | None => false
      end
  | JArr items => existsb to_string_throws items
  | _ => false
  end.

Definition interpolate (v : jsvalue) : completion unit :=
  match v with
  | Some x => if to_string_throws x then Throw TypeError else Normal tt
  | None => Normal tt
  end.

(** ** The network *)

Inductive fetch_result : Type :=
| FetchRejected                                  (* network error *)
| FetchResponse (status : N) (body : option json).
    (* [body = None]: [response.json()] rejects *)

Definition ok (status : N) : bool := ((200 <=? status) && (status <=? 299))%N.

(** What the environment answers during one [translateText] call. *)
Record network : Type := {
  VITE_GEMINI_API_KEY : option jsstring;   (* [import.meta.env] *)
  key_fetch : fetch_result;                (* GET /functions/v1/get-gemini-key *)
  api_fetch : fetch_result                 (* POST to the Gemini endpoint *)
}.

(** ** translationService.ts *)

Record TranslationRequest : Type := {
  req_text : jsstring;
  req_fromLanguage : jsstring;
  req_toLanguage : jsstring
}.

Record TranslationResponse : Type := {
  translatedText : jsstring;
  confidence : Q
}.

Module TranslationService.

Definition getApiKey_try (net : network) : completion jsvalue :=
  match key_fetch net with
  | FetchRejected => Throw NetworkFailure
  | FetchResponse status body =>
      if negb (ok status)
      then Throw (Error (js "Failed to get API key from server"))
      else
        match body with
        | None => Throw SyntaxError
        | Some data => dot (Name (js "apiKey")) data
        end
  end.

Definition getApiKey (net : network) : completion jsvalue :=
  match VITE_GEMINI_API_KEY net with
  | Some (c :: k) => Normal (Some (JStr (c :: k)))
  | _ =>
      match getApiKey_try net with
      | Normal apiKey => Normal apiKey
      | Throw _ =>
          Throw (Error (js "API key not configured. Please set VITE_GEMINI_API_KEY environment variable for local development."))
      end
  end.

(** [data.candidates?.[0]?.content?.parts?.[0]?.text?.trim()] *)
Definition candidate_text (data : json) : completion (option jsstring) :=
  candidates <- dot (Name (js "candidates")) data ;;
  opt_trim
    (opt_dot (Name (js "text"))
       (opt_dot (Index 0)
          (opt_dot (Name (js "parts"))
             (opt_dot (Name (js "content"))
                (opt_dot (Index 0) candidates))))).

(** The body of the [try] block. *)
Definition translateText_try (net : network) (req : TranslationRequest)
  : completion TranslationResponse :=
  apiKey <- getApiKey net ;;
  interpolate apiKey ;;;          (* [`${GEMINI_API_URL}?key=${apiKey}`] *)
  match api_fetch net with
  | FetchRejected => Throw NetworkFailure
  | FetchResponse status body =>
      if negb (ok status)
      then Throw (Error (js "Translation API error: " ++ decimal status))
      else
        match body with
        | None => Throw SyntaxError
        | Some data =>
            candidate <- candidate_text data ;;
            let translatedText :=
              match candidate with
              | Some t => string_or t (req_text req)
              | None => req_text req
              end in
            Normal {| translatedText := translatedText;
                      confidence := 19 # 20 |}
        end
  end.

Definition translateText (net : network) (req : TranslationRequest)
  : TranslationResponse :=
  match translateText_try net req with
  | Normal response => response
  | Throw _ => {| translatedText := req_text req; confidence := 0 |}
  end.

Definition batchTranslate (nets : list network)
  (requests : list TranslationRequest) : list TranslationResponse :=
  map (fun p => translateText (fst p) (snd p)) (combine nets requests).

End TranslationService.

(** ** speechService.ts and useVoiceTranslation.ts: data *)

Record SpeechRecognitionResult : Type := {
  sr_text : jsstring;
  sr_confidence : Q;
  sr_language : jsstring
}.

Record SpeechSynthesisOptions : Type := {
  opt_text : jsstring;
  opt_language : jsstring;
  opt_voice : option jsstring;
  opt_rate : option Q;
  opt_pitch : option Q;
  opt_volume : option Q
}.

(** The [SpeechSynthesisUtterance] handed to [speechSynthesis.speak]. *)
Record Utterance : Type := {
  utt_text : jsstring;
  utt_lang : jsstring;
  utt_rate : Q;
  utt_pitch : Q;
  utt_volume : Q
}.

Record VoiceTranslationResult : Type := {
  originalText : jsstring;
  vt_translatedText : jsstring;
  fromLanguage : jsstring;
  toLanguage : jsstring;
  vt_confidence : Q
}.

(** The props of the hook that are data; the two callbacks are observed
    through the log. *)
Record Props : Type := {
  p_fromLanguage : jsstring;
  p_toLanguage : jsstring
}.

(** What the browser offers: [window.SpeechRecognition] (or its webkit
    variant) and [window.speechSynthesis]. *)
Record Platform : Type := {
  has_recognition : bool;
  has_synthesis : bool
}.

(** The three [useState] cells. *)
Record Flags : Type := {
  isListening : bool;
  isTranslating : bool;
  isSpeaking : bool
}.

(** Everything the code does that can be seen from outside, in program
    order. *)
Inductive effect : Type :=
| SetIsListening (b : bool)
| SetIsTranslating (b : bool)
| SetIsSpeaking (b : bool)
| OnError (message : jsstring)                 (* [onError?.(message)] *)
| OnTranslationComplete (r : VoiceTranslationResult)
| Toast (title description : jsstring) (destructive : bool)
| ConsoleLog (label : jsstring)
| ConsoleError (label : jsstring)
| NewAbortController
| Abort
| RecognitionStart (lang : jsstring)           (* [recognition.start()] has
                                                  returned: a capture *)
| RecognitionStop                              (* [recognition.stop()] *)
| TranslateCall (req : TranslationRequest)     (* [translationService.translateText] *)
| Speak (u : Utterance)                        (* [synthesis.speak(utterance)] *)
| SynthesisCancel.                             (* [synthesis.cancel()] *)

(** An activation of [translateAndSpeak] suspended at one of its two
    [await]s, with the locals it still needs. *)
Inductive frame : Type :=
| AwaitTranslation (text : jsstring) (speechConfidence : Q)
| AwaitSynthesis (text : jsstring) (translationResult : TranslationResponse)
    (result : VoiceTranslationResult).

(** The promise returned by the latest [recognizeSpeech] call, the one the
    handlers installed on the recognition object settle. *)
Inductive promise_state : Type := Pending | Settled.

Record State : Type := {
  props : Props;
  platform : Platform;
  flags : Flags;
  abortController : option bool;         (* [abortControllerRef.current]:
                                            [None] is null, [Some b] a
                                            controller with [signal.aborted = b] *)
  recognizer : option promise_state;     (* [None]: no handlers installed yet *)
  frames : list (nat * frame);           (* suspended [translateAndSpeak]s *)
  next_id : nat;
  synth_queue : list nat;                (* the utterances the synthesizer
                                            holds, by the activation that
                                            waits for them *)
  log : list effect
}.

(** What can happen to the hook: its client calls one of the four functions
    it returns, or the environment delivers an event.  Whether
    [recognition.start()] returns or throws is the browser's choice, so a
    call of [startListening] comes in two kinds. *)
Inductive input : Type :=
| StartListening
    (* [startListening()], and [recognition.start()] returns *)
| StartListeningThrows (message : jsstring)
    (* [startListening()], and [recognition.start()] throws an exception
       with this message, as a recognizer does that is already started *)
| StopListening
| StopSpeaking
| TranslateText (text : jsstring)
| RecognitionResult (transcript : jsstring) (confidence : Q)
    (* [recognition.onresult], with [event.results[0][0]] *)
| RecognitionError (code : jsstring)
    (* [recognition.onerror], with [event.error] *)
| TranslationSettled (id : nat) (net : network)
    (* the [translationService.translateText] call of activation [id]
       returns; [net] is what the network answered meanwhile *)
| UtteranceEnd (id : nat)                     (* [utterance.onend] *)
| UtteranceError (id : nat) (code : jsstring) (* [utterance.onerror] *).

(** ** State updates *)

Definition emit_all (l : list effect) (s : State) : State :=
  {| props := props s; platform := platform s; flags := flags s;
     abortController := abortController s; recognizer := recognizer s;
     frames := frames s; next_id := next_id s;
     synth_queue := synth_queue s; log := log s ++ l |}.

Definition emit (e : effect) : State -> State := emit_all [e].

Definition with_flags (f : Flags) (s : State) : State :=
  {| props := props s; platform := platform s; flags := f;
     abortController := abortController s; recognizer := recognizer s;
     frames := frames s; next_id := next_id s;
     synth_queue := synth_queue s; log := log s |}.

Definition with_abortController (a : option bool) (s : State) : State :=
  {| props := props s; platform := platform s; flags := flags s;
     abortController := a; recognizer := recognizer s;
     frames := frames s; next_id := next_id s;
     synth_queue := synth_queue s; log := log s |}.

Definition with_recognizer (r : option promise_state) (s : State) : State :=
  {| props := props s; platform := platform s; flags := flags s;
     abortController := abortController s; recognizer := r;
     frames := frames s; next_id := next_id s;
     synth_queue := synth_queue s; log := log s |}.

Definition with_frames (fs : list (nat * frame)) (s : State) : State :=
  {| props := props s; platform := platform s; flags := flags s;
     abortController := abortController s; recognizer := recognizer s;
     frames := fs; next_id := next_id s;
     synth_queue := synth_queue s; log := log s |}.

Definition with_next_id (n : nat) (s : State) : State :=
  {| props := props s; platform := platform s; flags := flags s;
     abortController := abortController s; recognizer := recognizer s;
     frames := frames s; next_id := n;
     synth_queue := synth_queue s; log := log s |}.

Definition with_synth_queue (q : list nat) (s : State) : State :=
  {| props := props s; platform := platform s; flags := flags s;
     abortController := abortController s; recognizer := recognizer s;
     frames := frames s; next_id := next_id s;
     synth_queue := q; log := log s |}.

Definition setIsListening (b : bool) (s : State) : State :=
  emit (SetIsListening b)
    (with_flags {| isListening := b;
                   isTranslating := isTranslating (flags s);
                   isSpeaking := isSpeaking (flags s) |} s).

Definition setIsTranslating (b : bool) (s : State) : State :=
  emit (SetIsTranslating b)
    (with_flags {| isListening := isListening (flags s);
                   isTranslating := b;
                   isSpeaking := isSpeaking (flags s) |} s).

Definition setIsSpeaking (b : bool) (s : State) : State :=
  emit (SetIsSpeaking b)
    (with_flags {| isListening := isListening (flags s);
                   isTranslating := isTranslating (flags s);
                   isSpeaking := b |} s).

(** The table of suspended activations.  A lookup takes the first entry
    with the id; a new activation goes to the end under a fresh id. *)
Fixpoint find_frame (id : nat) (fs : list (nat * frame)) : option frame :=
  match fs with
  | [] => None
  | (i, f) :: rest => if Nat.eqb i id then Some f else find_frame id rest
  end.

Fixpoint remove_frame (id : nat) (fs : list (nat * frame))
  : list (nat * frame) :=
  match fs with
  | [] => []
  | (i, f) :: rest =>
      if Nat.eqb i id then rest else (i, f) :: remove_frame id rest
  end.

Fixpoint replace_frame (id : nat) (g : frame) (fs : list (nat * frame))
  : list (nat * frame) :=
  match fs with
  | [] => []
  | (i, f) :: rest =>
      if Nat.eqb i id then (i, g) :: rest
      else (i, f) :: replace_frame id g rest
  end.

(** The utterance of activation [id] has ended, or failed. *)
Definition dequeue (id : nat) (q : list nat) : list nat :=
  filter (fun j => negb (Nat.eqb j id)) q.

Definition is_empty {A : Type} (l : list A) : bool :=
  match l with [] => true | _ :: _ => false end.

Definition suspend (f : frame) (s : State) : State :=
  with_next_id (S (next_id s))
    (with_frames (frames s ++ [(next_id s, f)]) s).

Definition seq (f g : State -> State) : State -> State :=
  fun s => g (f s).

Notation "f >> g" := (seq f g) (at level 62, left associativity).

Definition skip : State -> State := fun s => s.

(** ** speechService.ts

    The service is a singleton with one recognition object; only the hook
    calls it, so the callbacks it is handed are state transformers of the
    hook.  Every rejection of the service is [reject(new Error(message))]:
    a rejected promise is modelled by that message.  [recognition.start()]
    returns or throws, as the input says; [stop], [speak] and [cancel]
    do not throw.  What the platform reports later arrives as an
    [input]. *)

Module SpeechService.

Definition isSupported (s : State) : bool :=
  has_recognition (platform s) && has_synthesis (platform s).

(** The executor of the promise of [recognizeSpeech].  [Some message]:
    the promise is rejected at once; [None]: it is pending and the two
    handlers installed on the recognition object will settle it.

    [thrown] is what [this.recognition.start()] does, the last statement
    of the executor: [None], it returns and a capture is started;
    [Some message], it throws and the promise is rejected with the
    exception.  The handlers are installed before, so from then on they
    belong to the rejected promise, also for a capture started earlier. *)
Definition recognizeSpeech (language : jsstring)
  (onError : jsstring -> State -> State) (thrown : option jsstring)
  (s : State) : State * option jsstring :=
  if negb (has_recognition (platform s)) then
    let error := js "Speech recognition not supported in this browser" in
    (onError error s, Some error)
  else
    match thrown with
    | None =>
        (emit (RecognitionStart language) (with_recognizer (Some Pending) s),
         None)
    | Some message => (with_recognizer (Some Settled) s, Some message)
    end.

(** [this.recognition.onresult].  [Some r]: the promise resolves with
    [r]; [None]: it was settled before and [resolve] does nothing. *)
Definition onresult (language : jsstring)
  (onResult : SpeechRecognitionResult -> State -> State)
  (transcript : jsstring) (conf : Q) (s : State)
  : State * option SpeechRecognitionResult :=
  let speechResult :=
    {| sr_text := transcript; sr_confidence := conf;
       sr_language := language |} in
  let s1 := onResult speechResult s in
  match recognizer s1 with
  | Some Pending => (with_recognizer (Some Settled) s1, Some speechResult)
  | _ => (s1, None)
  end.

(** [this.recognition.onerror]. *)
Definition onerror (onError : jsstring -> State -> State)
  (code : jsstring) (s : State) : State * option jsstring :=
  let error := js "Speech recognition error: " ++ code in
  let s1 := onError error s in
  match recognizer s1 with
  | Some Pending => (with_recognizer (Some Settled) s1, Some error)
  | _ => (s1, None)
  end.

(** The utterance [synthesizeSpeech] builds.  The hook never names a
    voice, so the voice lookup of the source is not reached. *)
Definition make_utterance (options : SpeechSynthesisOptions) : Utterance :=
  {| utt_text := opt_text options;
     utt_lang := string_or (opt_language options) (js "en-US");
     utt_rate := number_or (opt_rate options) 1;
     utt_pitch := number_or (opt_pitch options) 1;
     utt_volume := number_or (opt_volume options) 1 |}.

(** The executor of the promise of [synthesizeSpeech]: rejected at once
    without synthesis, pending on the utterance's events otherwise.  [id]
    names the utterance: the activation that awaits the promise. *)
Definition synthesizeSpeech (id : nat) (options : SpeechSynthesisOptions)
  (s : State) : State * option jsstring :=
  if negb (has_synthesis (platform s)) then
    (s, Some (js "Speech synthesis not supported in this browser"))
  else
    (emit (Speak (make_utterance options))
       (with_synth_queue (synth_queue s ++ [id]) s), None).

(** [utterance.onerror] rejects with this message. *)
Definition synthesis_error (code : jsstring) : jsstring :=
  js "Speech synthesis error: " ++ code.

(** [this.synthesis?.speaking]: the synthesizer holds an utterance, one
    handed to [speak] that has neither ended nor been cancelled.  (An
    utterance is taken to begin as soon as the synthesizer is free.) *)
Definition speaking (s : State) : bool :=
  has_synthesis (platform s) && negb (is_empty (synth_queue s)).

(** [cancel()] removes every utterance from the synthesizer; their events
    arrive later. *)
Definition stopSpeaking (s : State) : State :=
  if speaking s then emit SynthesisCancel (with_synth_queue [] s) else s.

Definition stopListening (s : State) : State :=
  if has_recognition (platform s) then emit RecognitionStop s else s.

End SpeechService.

(** ** useVoiceTranslation.ts

    An [async] function runs until its next [await] on the platform; the
    states between two inputs are the ones a render can show.  The props
    stay the same while the hook is mounted, and the two callbacks and
    [toast] return normally. *)

Module Hook.

Definition onError (message : jsstring) : State -> State :=
  emit (OnError message).

Definition onTranslationComplete (r : VoiceTranslationResult)
  : State -> State :=
  emit (OnTranslationComplete r).

Definition toast (title description : jsstring) (destructive : bool)
  : State -> State :=
  emit (Toast title description destructive).

Definition quoted (s : jsstring) : jsstring := [34%N] ++ s ++ [34%N].

(** [translateAndSpeak] up to its first [await]. *)
Definition translateAndSpeak (text : jsstring) (speechConfidence : Q)
  : State -> State :=
  setIsTranslating true
  >> (fun s => emit (TranslateCall
                       {| req_text := text;
                          req_fromLanguage := p_fromLanguage (props s);
                          req_toLanguage := p_toLanguage (props s) |}) s)
  >> suspend (AwaitTranslation text speechConfidence).

Definition translateAndSpeak_finally : State -> State :=
  setIsTranslating false.

(** The [catch] block of [translateAndSpeak], then its [finally]. *)
Definition translateAndSpeak_catch (errorMessage : jsstring)
  : State -> State :=
  setIsTranslating false
  >> setIsSpeaking false
  >> onError errorMessage
  >> toast (js "Translation failed") errorMessage true
  >> translateAndSpeak_finally.

Definition make_result (p : Props) (text : jsstring)
  (speechConfidence : Q) (translationResult : TranslationResponse)
  : VoiceTranslationResult :=
  {| originalText := text;
     vt_translatedText := translatedText translationResult;
     fromLanguage := p_fromLanguage p;
     toLanguage := p_toLanguage p;
     vt_confidence :=
       Math_min speechConfidence (confidence translationResult) |}.

(** What [translationService.translateText] writes to the console. *)
Definition translation_console (net : network) (req : TranslationRequest)
  : list effect :=
  (match VITE_GEMINI_API_KEY net, TranslationService.getApiKey net with
   | Some (_ :: _), _ => []
   | _, Throw _ => [ConsoleError (js "Error getting API key:")]
   | _, Normal _ => []
   end)
  ++ (match TranslationService.translateText_try net req with
      | Throw _ => [ConsoleError (js "Translation error:")]
      | Normal _ => []
      end).

(** [translateAndSpeak] from the first [await] to the second. *)
Definition translateAndSpeak_translated (id : nat) (text : jsstring)
  (speechConfidence : Q) (net : network) (s : State) : State :=
  let req := {| req_text := text;
                req_fromLanguage := p_fromLanguage (props s);
                req_toLanguage := p_toLanguage (props s) |} in
  let translationResult := TranslationService.translateText net req in
  let result := make_result (props s) text speechConfidence
                  translationResult in
  let s1 := (emit_all (translation_console net req)
             >> setIsSpeaking true) s in
  match SpeechService.synthesizeSpeech id
          {| opt_text := translatedText translationResult;
             opt_language := p_toLanguage (props s);
             opt_voice := None;
             opt_rate := Some (9 # 10);
             opt_pitch := Some 1;
             opt_volume := Some (8 # 10) |} s1 with
  | (s2, Some errorMessage) =>
      translateAndSpeak_catch errorMessage
        (with_frames (remove_frame id (frames s2)) s2)
  | (s2, None) =>
      with_frames
        (replace_frame id (AwaitSynthesis text translationResult result)
           (frames s2)) s2
  end.

(** [translateAndSpeak] after playback has ended. *)
Definition translateAndSpeak_spoken (id : nat) (text : jsstring)
  (translationResult : TranslationResponse)
  (result : VoiceTranslationResult) (s : State) : State :=
  (setIsSpeaking false
   >> onTranslationComplete result
   >> toast (js "Translation complete")
        (quoted text ++ js " " ++ [8594%N] ++ js " "
         ++ quoted (translatedText translationResult)) false
   >> translateAndSpeak_finally)
    (with_frames (remove_frame id (frames s)) s).

(** The callbacks [startListening] hands to [recognizeSpeech]. *)
Definition recognition_onResult (r : SpeechRecognitionResult)
  : State -> State :=
  emit (ConsoleLog (js "Speech recognition result:")).

Definition recognition_onError (error : jsstring) : State -> State :=
  emit (ConsoleError (js "Speech recognition error:"))
  >> onError error
  >> setIsListening false.

(** The [catch] block of [startListening].  What it catches is an
    [Error]: the service rejects with [new Error(message)], and what
    [recognition.start()] throws is a [DOMException]; so the reason it
    reports is the message of the error. *)
Definition startListening_catch (errorMessage : jsstring)
  : State -> State :=
  setIsListening false
  >> onError errorMessage
  >> toast (js "Speech recognition failed") errorMessage true.

(** [startListening] after [recognizeSpeech] has resolved. *)
Definition startListening_recognized (result : SpeechRecognitionResult)
  (s : State) : State :=
  let s1 := setIsListening false s in
  if truthy_string (trim (sr_text result))
  then translateAndSpeak (sr_text result) (sr_confidence result) s1
  else s1.

(** [thrown]: what [recognition.start()] does during this call. *)
Definition startListening (thrown : option jsstring) (s : State) : State :=
  if negb (SpeechService.isSupported s) then
    let error := js "Speech recognition is not supported in this browser" in
    (onError error >> toast (js "Browser not supported") error true) s
  else
    let s1 := (setIsListening true
               >> emit NewAbortController
               >> with_abortController (Some false)) s in
    match SpeechService.recognizeSpeech (p_fromLanguage (props s1))
            recognition_onError thrown s1 with
    | (s2, Some errorMessage) => startListening_catch errorMessage s2
    | (s2, None) => s2
    end.

Definition stopListening : State -> State :=
  SpeechService.stopListening
  >> setIsListening false
  >> (fun s => match abortController s with
               | Some _ => emit Abort (with_abortController (Some true) s)
               | None => s
               end).

Definition stopSpeaking : State -> State :=
  SpeechService.stopSpeaking >> setIsSpeaking false.

Definition translateText (text : jsstring) : State -> State :=
  translateAndSpeak text 1.

Definition step (s : State) (i : input) : State :=
  match i with
  | StartListening => startListening None s
  | StartListeningThrows message => startListening (Some message) s
  | StopListening => stopListening s
  | StopSpeaking => stopSpeaking s
  | TranslateText text => translateText text s
  | RecognitionResult transcript conf =>
      match recognizer s with
      | None => s
      | Some _ =>
          match SpeechService.onresult (p_fromLanguage (props s))
                  recognition_onResult transcript conf s with
          | (s1, Some result) => startListening_recognized result s1
          | (s1, None) => s1
          end
      end
  | RecognitionError code =>
      match recognizer s with
      | None => s
      | Some _ =>
          match SpeechService.onerror recognition_onError code s with
          | (s1, Some errorMessage) => startListening_catch errorMessage s1
          | (s1, None) => s1
          end
      end
  | TranslationSettled id net =>
      match find_frame id (frames s) with
      | Some (AwaitTranslation text speechConfidence) =>
          translateAndSpeak_translated id text speechConfidence net s
      | _ => s
      end
  | UtteranceEnd id =>
      let s0 := with_synth_queue (dequeue id (synth_queue s)) s in
      match find_frame id (frames s0) with
      | Some (AwaitSynthesis text translationResult result) =>
          translateAndSpeak_spoken id text translationResult result s0
      | _ => s0
      end
  | UtteranceError id code =>
      let s0 := with_synth_queue (dequeue id (synth_queue s)) s in
      match find_frame id (frames s0) with
      | Some (AwaitSynthesis _ _ _) =>
          translateAndSpeak_catch (SpeechService.synthesis_error code)
            (with_frames (remove_frame id (frames s0)) s0)
      | _ => s0
      end
  end.

Definition run (s : State) (inputs : list input) : State :=
  fold_left step inputs s.

(** The flags after each input. *)
Fixpoint observe (s : State) (inputs : list input) : list Flags :=
  match inputs with
  | [] => []
  | i :: rest => flags (step s i) :: observe (step s i) rest
  end.

Definition idle : Flags :=
  {| isListening := false; isTranslating := false; isSpeaking := false |}.

(** The hook as mounted. *)
Definition init (p : Props) (pf : Platform) : State :=
  {| props := p; platform := pf; flags := idle;
     abortController := None; recognizer := None;
     frames := []; next_id := 0; synth_queue := []; log := [] |}.

End Hook.

(** ** Vocabulary of the properties *)

(** The entries of a log that match [f], in order. *)
Fixpoint pick {A : Type} (f : effect -> option A) (l : list effect)
  : list A :=
  match l with
  | [] => []
  | e :: rest =>
      match f e with
      | Some a => a :: pick f rest
      | None => pick f rest
      end
  end.

(** The reasons handed to the error callback. *)
Definition errors : list effect -> list jsstring :=
  pick (fun e => match e with OnError m => Some m | _ => None end).

(** The results handed to the completion callback. *)
Definition completions : list effect -> list VoiceTranslationResult :=
  pick (fun e => match e with OnTranslationComplete r => Some r | _ => None end).

(** The captures started. *)
Definition captures : list effect -> list jsstring :=
  pick (fun e => match e with RecognitionStart l => Some l | _ => None end).

(** The calls of the translator. *)
Definition translations : list effect -> list TranslationRequest :=
  pick (fun e => match e with TranslateCall r => Some r | _ => None end).

(** The utterances handed to playback. *)
Definition utterances : list effect -> list Utterance :=
  pick (fun e => match e with Speak u => Some u | _ => None end).

Definition listening : Flags :=
  {| isListening := true; isTranslating := false; isSpeaking := false |}.

Definition translating : Flags :=
  {| isListening := false; isTranslating := true; isSpeaking := false |}.

(** Both [isTranslating] and [isSpeaking]: what the flags are during
    playback. *)
Definition playing : Flags :=
  {| isListening := false; isTranslating := true; isSpeaking := true |}.

Definition count_true (f : Flags) : nat :=
  (if isListening f then 1 else 0) + (if isTranslating f then 1 else 0)
  + (if isSpeaking f then 1 else 0).

(** [isListening] excludes the other two flags, and [isSpeaking] is only
    set under [isTranslating]. *)
Definition well_staged (f : Flags) : bool :=
  (negb (isListening f) || negb (isTranslating f || isSpeaking f))
  && (negb (isSpeaking f) || isTranslating f).

(** The two calls that start a pipeline run. *)
Definition starts_run (i : input) : bool :=
  match i with
  | StartListening | StartListeningThrows _ | TranslateText _ => true
  | _ => false
  end.

(** The event that ends the translation of activation [id]. *)
Definition settles (id : nat) (i : input) : bool :=
  match i with
  | TranslationSettled j _ => Nat.eqb j id
  | _ => false
  end.

(** The two events that end the playback of activation [id]. *)
Definition ends_playback (id : nat) (i : input) : bool :=
  match i with
  | UtteranceEnd j | UtteranceError j _ => Nat.eqb j id
  | _ => false
  end.

(** A transcript that is empty or whitespace only. *)
Definition blank (s : jsstring) : bool := forallb is_whitespace s.

(** The remote call fails: no key can be had, the request is rejected by
    the network, the status is not OK, or the body does not parse. *)
Definition remote_fails (net : network) : bool :=
  match TranslationService.getApiKey net with
  | Throw _ => true
  | Normal _ =>
      match api_fetch net with
      | FetchRejected => true
      | FetchResponse status body =>
          negb (ok status)
          || match body with None => true | Some _ => false end
      end
  end.

Definition is_null (v : json) : bool :=
  match v with JNull => true | _ => false end.

(** The request for a key fails: it is rejected by the network, its
    status is not OK, or its body does not parse or is [null]. *)
Definition key_request_fails (kf : fetch_result) : bool :=
  match kf with
  | FetchRejected => true
  | FetchResponse status body =>
      negb (ok status)
      || match body with
         | None => true
         | Some data => is_null data
         end
  end.

(** The URL of the endpoint can be built: there is a key in the
    environment, or the request for a key does not fail and what its
    answer holds as [apiKey] (possibly nothing) converts to a string. *)
Definition url_built (net : network) : bool :=
  match VITE_GEMINI_API_KEY net with
  | Some (_ :: _) => true
  | _ =>
      negb (key_request_fails (key_fetch net))
      && match key_fetch net with
         | FetchResponse _ (Some data) =>
             match member (Name (js "apiKey")) data with
             | Some v => negb (to_string_throws v)
             | None => true
             end
         | _ => false
         end
  end.

(** The remote call succeeds at the transport level and delivers [data]:
    the URL could be built and the endpoint answers [data] with a status
    that is OK. *)
Definition delivers (net : network) (data : json) : Prop :=
  url_built net = true
  /\ exists status,
       api_fetch net = FetchResponse status (Some data) /\ ok status = true.

(** What a response holds at [candidates[0].content.parts[0].text]. *)
Definition candidate (data : json) : jsvalue :=
  opt_dot (Name (js "text"))
    (opt_dot (Index 0)
       (opt_dot (Name (js "parts"))
          (opt_dot (Name (js "content"))
             (opt_dot (Index 0) (member (Name (js "candidates")) data))))).

(** The response can be read: it is not [null], and its candidate text is
    missing, [null] or a string. *)
Definition readable (data : json) : bool :=
  negb (is_null data)
  && match candidate data with
     | None | Some JNull | Some (JStr _) => true
     | Some _ => false
     end.

(** The remote call succeeds: the URL could be built, the endpoint answers
    with a status that is OK and a body that parses and can be read. *)
Definition call_succeeds (net : network) : bool :=
  url_built net
  && match api_fetch net with
     | FetchResponse status (Some data) => ok status && readable data
     | _ => false
     end.

(** The network of [net], with another answer of the endpoint. *)
Definition with_api_fetch (af : fetch_result) (net : network) : network :=
  {| VITE_GEMINI_API_KEY := VITE_GEMINI_API_KEY net;
     key_fetch := key_fetch net;
     api_fetch := af |}.

(** A result without its confidence. *)
Definition shape (r : VoiceTranslationResult)
  : jsstring * jsstring * jsstring * jsstring :=
  (originalText r, vt_translatedText r, fromLanguage r, toLanguage r).

(** The request the hook sends for [text]. *)
Definition request (p : Props) (text : jsstring) : TranslationRequest :=
  {| req_text := text;
     req_fromLanguage := p_fromLanguage p;
     req_toLanguage := p_toLanguage p |}.

(** The utterance the hook has spoken for [text]. *)
Definition spoken (p : Props) (text : jsstring) : Utterance :=
  {| utt_text := text; utt_lang := string_or (p_toLanguage p) (js "en-US");
     utt_rate := 9 # 10; utt_pitch := 1; utt_volume := 8 # 10 |}.

(** ** Sample data *)

Definition en_es : Props :=
  {| p_fromLanguage := js "en-US"; p_toLanguage := js "es-ES" |}.

Definition browser : Platform :=
  {| has_recognition := true; has_synthesis := true |}.

Definition hello : jsstring := js "Hello".

(** A well-formed answer of the endpoint carrying [text]. *)
Definition gemini_body (text : jsstring) : json :=
  JObj [(js "candidates",
         JArr [JObj [(js "content",
                      JObj [(js "parts",
                             JArr [JObj [(js "text", JStr text)]])])]])].

Definition answers (body : json) : network :=
  {| VITE_GEMINI_API_KEY := Some (js "key");
     key_fetch := FetchRejected;
     api_fetch := FetchResponse 200 (Some body) |}.

Definition offline : network :=
  {| VITE_GEMINI_API_KEY := Some (js "key");
     key_fetch := FetchRejected;
     api_fetch := FetchRejected |}.

Definition heard : json := gemini_body (js "Hola").

(** The hook while a capture is in flight. *)
Definition capturing : State :=
  Hook.step (Hook.init en_es browser) StartListening.

(** The hook after ["Hello"] was captured with confidence 0.9 and sent
    to the translator. *)
Definition captured : State :=
  Hook.step capturing (RecognitionResult hello (9 # 10)).

(** ** One pipeline run

    The playback of activation [id] ends ([None]) or fails with a code. *)
Definition playback_outcome (id : nat) (o : option jsstring) : input :=
  match o with
  | None => UtteranceEnd id
  | Some code => UtteranceError id code
  end.

(** How an activation of the pipeline starts: the capture in flight
    delivers a transcript that is not blank, with its confidence, or the
    client hands in a text, which stands for a capture confidence of 1.0. *)
Definition enters (s : State) (o : input) (text : jsstring) (c : Q) : Prop :=
  match o with
  | RecognitionResult transcript conf =>
      transcript = text /\ conf = c /\ recognizer s = Some Pending
      /\ truthy_string (trim transcript) = true
  | TranslateText t => t = text /\ c = 1
  | _ => False
  end.

(** The ids of the suspended activations are below the next id. *)
Definition ids_below (n : nat) (fs : list (nat * frame)) : bool :=
  forallb (fun entry => Nat.ltb (fst entry) n) fs.

(** What holds of the state while a single run is in progress: at most
    one activation of [translateAndSpeak] is suspended, and the flags
    follow from where it is suspended. *)
Definition run_invariant (s : State) : Prop :=
  match frames s with
  | [] => isTranslating (flags s) = false /\ isSpeaking (flags s) = false
  | [(_, AwaitTranslation _ _)] =>
      flags s = translating /\ recognizer s <> Some Pending
  | [(_, AwaitSynthesis _ _ _)] =>
      isListening (flags s) = false /\ isTranslating (flags s) = true
      /\ recognizer s <> Some Pending
  | _ => False
  end.

(** ** Earlier versions of the translation service

    Two more versions of [translationService.ts] are in the repository.
    The first has the key in the code and never asks for one. *)

Module EmbeddedKeyService.

Definition translateText_try (net : network) (req : TranslationRequest)
  : completion TranslationResponse :=
  match api_fetch net with
  | FetchRejected => Throw NetworkFailure
  | FetchResponse status body =>
      if negb (ok status)
      then Throw (Error (js "Translation API error: " ++ decimal status))
      else
        match body with
        | None => Throw SyntaxError
        | Some data =>
            candidate <- TranslationService.candidate_text data ;;
            let translatedText :=
              match candidate with
              | Some t => string_or t (req_text req)
              | None => req_text req
              end in
            Normal {| translatedText := translatedText;
                      confidence := 19 # 20 |}
        end
  end.

Definition translateText (net : network) (req : TranslationRequest)
  : TranslationResponse :=
  match translateText_try net req with
  | Normal response => response
  | Throw _ => {| translatedText := req_text req; confidence := 0 |}
  end.

End EmbeddedKeyService.

(** The second always asks the server for the key; it does not look at
    the environment. *)

Module ServerKeyService.

Definition getApiKey_try (net : network) : completion jsvalue :=
  match key_fetch net with
  | FetchRejected => Throw NetworkFailure
  | FetchResponse status body =>
      if negb (ok status)
      then Throw (Error (js "Failed to get API key"))
      else
        match body with
        | None => Throw SyntaxError
        | Some data => dot (Name (js "apiKey")) data
        end
  end.

Definition getApiKey (net : network) : completion jsvalue :=
  match getApiKey_try net with
  | Normal apiKey => Normal apiKey
  | Throw _ => Throw (Error (js "API key not configured properly"))
  end.

Definition translateText_try (net : network) (req : TranslationRequest)
  : completion TranslationResponse :=
  apiKey <- getApiKey net ;;
  interpolate apiKey ;;;          (* [`${GEMINI_API_URL}?key=${apiKey}`] *)
  match api_fetch net with
  | FetchRejected => Throw NetworkFailure
  | FetchResponse status body =>
      if negb (ok status)
      then Throw (Error (js "Translation API error: " ++ decimal status))
      else
        match body with
        | None => Throw SyntaxError
        | Some data =>
            candidate <- TranslationService.candidate_text data ;;
            let translatedText :=
              match candidate with
              | Some t => string_or t (req_text req)
              | None => req_text req
              end in
            Normal {| translatedText := translatedText;
                      confidence := 19 # 20 |}
        end
  end.

Definition translateText (net : network) (req : TranslationRequest)
  : TranslationResponse :=
  match translateText_try net req with
  | Normal response => response
  | Throw _ => {| translatedText := req_text req; confidence := 0 |}
  end.

End ServerKeyService.

(** ** The component that uses the hook

    [EnhancedVoiceTranslator] drives the hook from one button; it reads
    the flags of its last render. *)

Module EnhancedVoiceTranslator.






End EnhancedVoiceTranslator.

(** ** More vocabulary *)

(** The network of [net], with another answer to the request for a key. *)
Definition with_key_fetch (kf : fetch_result) (net : network) : network :=
  {| VITE_GEMINI_API_KEY := VITE_GEMINI_API_KEY net;
     key_fetch := kf;
     api_fetch := api_fetch net |}.

(** The first and the last code unit of a string, if any. *)
Definition first_unit (s : jsstring) : option N := hd_error s.

Definition last_unit (s : jsstring) : option N := hd_error (rev s).

Definition not_whitespace (c : option N) : bool :=
  match c with
  | Some u => negb (is_whitespace u)
  | None => true
  end.

(** An activation that is suspended on its playback. *)
Definition is_spoken (entry : nat * frame) : bool :=
  match snd entry with
  | AwaitSynthesis _ _ _ => true
  | AwaitTranslation _ _ => false
  end.

(** The promise of the latest [recognizeSpeech] call is pending. *)
Definition capture_pending (s : State) : bool :=
  match recognizer s with
  | Some Pending => true
  | _ => false
  end.

(** Every flag that is set has something behind it in the hook's own
    bookkeeping: a pending promise of [recognizeSpeech] behind
    [isListening], a suspended activation behind [isTranslating], an
    activation suspended on its playback behind [isSpeaking]. *)
Definition flags_justified (s : State) : bool :=
  implb (isListening (flags s)) (capture_pending s)
  && implb (isTranslating (flags s)) (negb (is_empty (frames s)))
  && implb (isSpeaking (flags s)) (existsb is_spoken (frames s)).

(** The messages of the exceptions [recognition.start()] has thrown. *)
Fixpoint start_exceptions (inputs : list input) : list jsstring :=
  match inputs with
  | [] => []
  | StartListeningThrows message :: rest => message :: start_exceptions rest
  | _ :: rest => start_exceptions rest
  end.

(** The reasons the hook hands to the error callback: four of its own,
    and the messages of the exceptions thrown by [recognition.start()]. *)
Definition speech_reason (thrown : list jsstring) (m : jsstring) : Prop :=
  m = js "Speech recognition is not supported in this browser"
  \/ m = js "Speech synthesis not supported in this browser"
  \/ (exists code, m = js "Speech recognition error: " ++ code)
  \/ (exists code, m = js "Speech synthesis error: " ++ code)
  \/ In m thrown.

(** What holds of a result the hook delivers: it carries the languages
    of the props, its confidence is at most 0.95, and its translated text
    is among what was handed to playback. *)
Definition delivered_ok (p : Props) (l : list effect)
  (r : VoiceTranslationResult) : Prop :=
  fromLanguage r = p_fromLanguage p
  /\ toLanguage r = p_toLanguage p
  /\ (vt_confidence r <= 19 # 20)%Q
  /\ In (vt_translatedText r) (map utt_text (utterances l)).

(** What the hook asks of its services under the props [p]: captures in
    the source language, translations from the source to the target
    language, utterances in the target language ([en-US] if that is the
    empty string) at rate 0.9, pitch 1 and volume 0.8. *)
Definition asked_as_configured (p : Props) (e : effect) : Prop :=
  match e with
  | RecognitionStart lang => lang = p_fromLanguage p
  | TranslateCall req =>
      req_fromLanguage req = p_fromLanguage p
      /\ req_toLanguage req = p_toLanguage p
  | Speak u =>
      utt_lang u = string_or (p_toLanguage p) (js "en-US")
      /\ utt_rate u = 9 # 10 /\ utt_pitch u = 1 /\ utt_volume u = 8 # 10
  | _ => True
  end.

(** * Properties *)

Arguments Math_min : simpl never.
Arguments js : simpl never.
Arguments decimal : simpl never.
Arguments trim : simpl never.

(** ** Strings *)

Lemma trimStart_blank (s : jsstring) : blank s = true -> trimStart s = [].
Proof.
  unfold blank.
  induction s as [|c s IH]; simpl; [reflexivity|].
  intros H. apply andb_true_iff in H as [Hc Hs].
  rewrite Hc. exact (IH Hs).
Qed.

Lemma trim_blank (s : jsstring) : blank s = true -> trim s = [].
Proof.
  intros H. unfold trim, trimEnd.
  rewrite (trimStart_blank s H). reflexivity.
Qed.

Lemma trimStart_split (s : jsstring) :
  exists w, s = w ++ trimStart s /\ blank w = true.
Proof.
  induction s as [|c s [w [Hs Hw]]]; [exists []; split; reflexivity|].
  cbn [trimStart]. destruct (is_whitespace c) eqn:Hc.
  - exists (c :: w). split; [cbn; now f_equal|].
    unfold blank in *. cbn. now rewrite Hc.
  - exists []. split; reflexivity.
Qed.

Lemma trimStart_first (s : jsstring) :
  not_whitespace (first_unit (trimStart s)) = true.
Proof.
  induction s as [|c s IH]; [reflexivity|].
  cbn [trimStart]. destruct (is_whitespace c) eqn:Hc; [exact IH|].
  cbn. now rewrite Hc.
Qed.

Lemma trimStart_fixed (s : jsstring) :
  not_whitespace (first_unit s) = true -> trimStart s = s.
Proof.
  destruct s as [|c s]; [reflexivity|]. cbn.
  now destruct (is_whitespace c).
Qed.

Lemma blank_app (a b : jsstring) : blank (a ++ b) = blank a && blank b.
Proof. apply forallb_app. Qed.

Lemma blank_rev (s : jsstring) : blank (rev s) = blank s.
Proof.
  induction s as [|c s IH]; [reflexivity|].
  cbn [rev]. rewrite blank_app, IH. unfold blank. cbn.
  rewrite andb_true_r. apply andb_comm.
Qed.

Lemma trimStart_nil (s : jsstring) : trimStart s = [] -> blank s = true.
Proof.
  intros H. destruct (trimStart_split s) as [w [Hs Hw]].
  rewrite H, app_nil_r in Hs. now subst.
Qed.

(** What [trimEnd] removes is whitespace at the end. *)
Lemma trimEnd_split (s : jsstring) :
  exists w, s = trimEnd s ++ w /\ blank w = true.
Proof.
  unfold trimEnd. destruct (trimStart_split (rev s)) as [w [Hs Hw]].
  exists (rev w). split; [|now rewrite blank_rev].
  rewrite <- rev_app_distr, <- Hs. symmetry. apply rev_involutive.
Qed.

Lemma trim_first (s : jsstring) : not_whitespace (first_unit (trim s)) = true.
Proof.
  unfold trim. destruct (trimEnd_split (trimStart s)) as [w [Hs Hw]].
  pose proof (trimStart_first s) as H. rewrite Hs in H.
  destruct (trimEnd (trimStart s)); [reflexivity | exact H].
Qed.

Lemma trim_last (s : jsstring) : not_whitespace (last_unit (trim s)) = true.
Proof.
  unfold trim, trimEnd, last_unit. rewrite rev_involutive.
  apply trimStart_first.
Qed.

Lemma trim_fixed (s : jsstring) :
  not_whitespace (first_unit s) = true ->
  not_whitespace (last_unit s) = true ->
  trim s = s.
Proof.
  intros Hf Hl. unfold trim. rewrite (trimStart_fixed s Hf).
  unfold trimEnd. rewrite (trimStart_fixed (rev s) Hl).
  apply rev_involutive.
Qed.

Lemma trim_idempotent (s : jsstring) : trim (trim s) = trim s.
Proof. apply trim_fixed; [apply trim_first | apply trim_last]. Qed.

Lemma trim_nil (s : jsstring) : trim s = [] -> blank s = true.
Proof.
  unfold trim. intros H.
  destruct (trimEnd_split (trimStart s)) as [w [Hs Hw]].
  rewrite H in Hs. cbn in Hs.
  destruct (trimStart_split s) as [w0 [Hs0 Hw0]].
  rewrite Hs0, blank_app, Hw0, Hs, Hw. reflexivity.
Qed.

(** [text.trim()] is truthy exactly when [text] has a code unit that is
    not whitespace. *)
Lemma truthy_trim (s : jsstring) : truthy_string (trim s) = negb (blank s).
Proof.
  destruct (blank s) eqn:Hb.
  - now rewrite (trim_blank s Hb).
  - destruct (trim s) eqn:Ht; [|reflexivity].
    apply trim_nil in Ht. congruence.
Qed.

(** ** The translator *)

Section Translator.

Variables (net : network) (req : TranslationRequest).

Lemma translateText_try_confidence (r : TranslationResponse) :
  TranslationService.translateText_try net req = Normal r ->
  confidence r = 19 # 20.
Proof.
  unfold TranslationService.translateText_try, bind.
  destruct (TranslationService.getApiKey net) as [apiKey|]; [|discriminate].
  destruct (interpolate apiKey); [|discriminate].
  destruct (api_fetch net) as [|status [data|]]; try discriminate;
    destruct (negb (ok status)); try discriminate.
  destruct (TranslationService.candidate_text data); [|discriminate].
  intros H. injection H as <-. reflexivity.
Qed.

Lemma translateText_normal (r : TranslationResponse) :
  TranslationService.translateText_try net req = Normal r ->
  TranslationService.translateText net req = r.
Proof.
  intros H. unfold TranslationService.translateText. now rewrite H.
Qed.

Lemma translateText_throw (e : js_error) :
  TranslationService.translateText_try net req = Throw e ->
  TranslationService.translateText net req
  = {| translatedText := req_text req; confidence := 0 |}.
Proof.
  intros H. unfold TranslationService.translateText. now rewrite H.
Qed.

Lemma remote_fails_throws :
  remote_fails net = true ->
  exists e, TranslationService.translateText_try net req = Throw e.
Proof.
  unfold remote_fails, TranslationService.translateText_try, bind.
  destruct (TranslationService.getApiKey net) as [apiKey|e];
    [|intros _; now exists e].
  destruct (interpolate apiKey) as [u|e]; [|intros _; now exists e].
  destruct (api_fetch net) as [|status [data|]].
  - intros _. now eexists.
  - rewrite orb_false_r. intros ->. now eexists.
  - intros _. destruct (negb (ok status)); now eexists.
Qed.

Lemma remote_fails_fallback :
  remote_fails net = true ->
  TranslationService.translateText net req
  = {| translatedText := req_text req; confidence := 0 |}.
Proof.
  intros H. destruct (remote_fails_throws H) as [e He].
  exact (translateText_throw e He).
Qed.

Lemma dot_member (k : key) (data : json) :
  is_null data = false -> dot k data = Normal (member k data).
Proof. now destruct data. Qed.

Lemma dot_null (k : key) (data : json) :
  is_null data = true -> dot k data = Throw TypeError.
Proof. now destruct data. Qed.

(** The URL is built exactly when [getApiKey] returns a key that can be
    interpolated. *)
Lemma url_built_true :
  url_built net = true ->
  exists apiKey,
    TranslationService.getApiKey net = Normal apiKey
    /\ interpolate apiKey = Normal tt.
Proof.
  unfold url_built, TranslationService.getApiKey,
    TranslationService.getApiKey_try, key_request_fails, interpolate.
  destruct (VITE_GEMINI_API_KEY net) as [[|c k]|];
    try (intros _; eexists; split; reflexivity).
  all: destruct (key_fetch net) as [|status [data|]];
    cbn [negb orb andb]; try discriminate;
    destruct (ok status); cbn [negb orb andb]; try discriminate;
    destruct (is_null data) eqn:Hn; cbn [negb orb andb]; try discriminate;
    rewrite (dot_member _ _ Hn); intros H; eexists;
    (split; [reflexivity|]);
    destruct (member (Name (js "apiKey")) data);
    [apply negb_true_iff in H; now rewrite H | reflexivity].
Qed.

Lemma url_built_false :
  url_built net = false ->
  exists e, TranslationService.translateText_try net req = Throw e.
Proof.
  unfold url_built, TranslationService.translateText_try,
    TranslationService.getApiKey, TranslationService.getApiKey_try,
    key_request_fails, interpolate.
  destruct (VITE_GEMINI_API_KEY net) as [[|c k]|]; try discriminate.
  all: destruct (key_fetch net) as [|status [data|]];
    cbn [negb orb andb bind]; try (intros _; now eexists);
    destruct (ok status); cbn [negb orb andb bind];
    try (intros _; now eexists);
    destruct (is_null data) eqn:Hn; cbn [negb orb andb bind];
    [rewrite (dot_null _ _ Hn); intros _; now eexists|];
    rewrite (dot_member _ _ Hn); cbn [bind];
    destruct (member (Name (js "apiKey")) data); try discriminate;
    intros H; apply negb_false_iff in H; rewrite H; now eexists.
Qed.

(** The chain of optional accesses, as one path into the response. *)
Lemma candidate_text_path (data : json) :
  TranslationService.candidate_text data
  = if is_null data then Throw TypeError else opt_trim (candidate data).
Proof. destruct data; reflexivity. Qed.

Lemma candidate_text_readable (data : json) :
  match TranslationService.candidate_text data with
  | Normal _ => readable data = true
  | Throw _ => readable data = false
  end.
Proof.
  rewrite candidate_text_path. unfold readable, opt_trim.
  destruct (is_null data); [reflexivity|].
  destruct (candidate data) as [[| | | | |]|]; reflexivity.
Qed.

(** The [try] block completes exactly when the remote call succeeds. *)
Lemma translateText_try_outcome :
  match TranslationService.translateText_try net req with
  | Normal _ => call_succeeds net = true
  | Throw _ => call_succeeds net = false
  end.
Proof.
  unfold call_succeeds.
  destruct (url_built net) eqn:Hurl.
  - destruct (url_built_true Hurl) as [apiKey [Hkey Hurl']].
    unfold TranslationService.translateText_try.
    rewrite Hkey. cbn [bind]. rewrite Hurl'. cbn [bind andb].
    destruct (api_fetch net) as [|status [data|]]; try reflexivity;
      destruct (ok status); cbn; try reflexivity.
    pose proof (candidate_text_readable data) as H.
    destruct (TranslationService.candidate_text data); exact H.
  - destruct (url_built_false Hurl) as [e ->]. reflexivity.
Qed.

Lemma delivers_translateText_try (data : json) :
  delivers net data ->
  TranslationService.translateText_try net req
  = (candidate <- TranslationService.candidate_text data ;;
     Normal {| translatedText :=
                 match candidate with
                 | Some t => string_or t (req_text req)
                 | None => req_text req
                 end;
               confidence := 19 # 20 |}).
Proof.
  intros [Hurl [status [Hfetch Hok]]].
  destruct (url_built_true Hurl) as [apiKey [Hkey Hurl']].
  unfold TranslationService.translateText_try.
  rewrite Hkey. cbn [bind]. rewrite Hurl'. cbn [bind].
  rewrite Hfetch, Hok. reflexivity.
Qed.

End Translator.

(** C5, evaluated: when the remote call succeeds at the transport level
    (the URL could be built, the endpoint answers with a status that is OK
    and a body that parses), what the translator returns depends on what
    the response holds at [candidates[0].content.parts[0].text].  A
    string that is not blank comes back trimmed, with confidence 0.95.
    Nothing there (the path is undefined or [null]) or a blank string
    gives the original text, still with confidence 0.95 and not with 0.
    Only a body that is [null] or a text that is not a string gives the
    original text with confidence 0, through the [catch] block. *)
Theorem unusable_response_keeps_success_confidence
  (net : network) (req : TranslationRequest) (data : json) :
  delivers net data ->
  TranslationService.translateText net req
  = if is_null data
    then {| translatedText := req_text req; confidence := 0 |}
    else
      match candidate data with
      | Some (JStr s) =>
          {| translatedText := if blank s then req_text req else trim s;
             confidence := 19 # 20 |}
      | None | Some JNull =>
          {| translatedText := req_text req; confidence := 19 # 20 |}
      | Some _ => {| translatedText := req_text req; confidence := 0 |}
      end.
Proof.
  intros H. unfold TranslationService.translateText.
  rewrite (delivers_translateText_try net req data H), candidate_text_path.
  destruct (is_null data); [reflexivity|].
  unfold opt_trim.
  destruct (candidate data) as [[| | |s| |]|]; try reflexivity.
  cbn [bind]. unfold string_or. rewrite truthy_trim.
  now destruct (blank s).
Qed.

(** The endpoint answers 200 with [{}], which has no candidate: the
    original text comes back with confidence 0.95. *)
Lemma unusable_response_witness :
  delivers (answers (JObj [])) (JObj [])
  /\ candidate (JObj []) = None
  /\ TranslationService.translateText (answers (JObj []))
       (request en_es hello)
     = {| translatedText := hello; confidence := 19 # 20 |}
  /\ ~ (19 # 20 == 0)%Q.
Proof.
  assert (H : delivers (answers (JObj [])) (JObj [])).
  { split; [reflexivity | exists 200%N; now split]. }
  split; [exact H|]. split; [reflexivity|]. split; [|discriminate].
  exact (unusable_response_keeps_success_confidence
           (answers (JObj [])) (request en_es hello) (JObj []) H).
Defined.

(** ** Logs and the table of activations *)

Lemma pick_app {A : Type} (f : effect -> option A) (l1 l2 : list effect) :
  pick f (l1 ++ l2) = pick f l1 ++ pick f l2.
Proof.
  induction l1 as [|e l1 IH]; simpl; [reflexivity|].
  destruct (f e); simpl; now rewrite IH.
Qed.

(** The translator only writes to the console. *)
Lemma console_is_silent {A : Type} (f : effect -> option A)
  (net : network) (req : TranslationRequest) :
  (forall m, f (ConsoleError m) = None) ->
  pick f (Hook.translation_console net req) = [].
Proof.
  intros Hf. unfold Hook.translation_console. rewrite pick_app.
  destruct (VITE_GEMINI_API_KEY net) as [[|? ?]|];
    destruct (TranslationService.getApiKey net);
    destruct (TranslationService.translateText_try net req);
    simpl; rewrite ?Hf; reflexivity.
Qed.

Lemma find_frame_app (id : nat) (fs l : list (nat * frame)) (f : frame) :
  find_frame id fs = Some f -> find_frame id (fs ++ l) = Some f.
Proof.
  induction fs as [|[j g] fs IH]; cbn; [discriminate|].
  destruct (Nat.eqb j id); auto.
Qed.

Lemma find_remove_other (id j : nat) (fs : list (nat * frame)) :
  Nat.eqb j id = false ->
  find_frame id (remove_frame j fs) = find_frame id fs.
Proof.
  intros Hj. induction fs as [|[k g] fs IH]; cbn; [reflexivity|].
  destruct (Nat.eqb k j) eqn:Hkj.
  - apply Nat.eqb_eq in Hkj as ->. now rewrite Hj.
  - cbn. now rewrite IH.
Qed.

Lemma find_replace_other (id j : nat) (g : frame) (fs : list (nat * frame)) :
  Nat.eqb j id = false ->
  find_frame id (replace_frame j g fs) = find_frame id fs.
Proof.
  intros Hj. induction fs as [|[k h] fs IH]; cbn; [reflexivity|].
  destruct (Nat.eqb k j) eqn:Hkj; cbn.
  - apply Nat.eqb_eq in Hkj as ->. now rewrite Hj.
  - now rewrite IH.
Qed.

Lemma find_replace_same (id : nat) (g : frame) (fs : list (nat * frame))
  (f : frame) :
  find_frame id fs = Some f ->
  find_frame id (replace_frame id g fs) = Some g.
Proof.
  induction fs as [|[k h] fs IH]; cbn; [discriminate|].
  destruct (Nat.eqb k id) eqn:Hk; cbn; rewrite Hk; auto.
Qed.

Lemma find_distinct (id j : nat) (fs : list (nat * frame)) (f g : frame) :
  find_frame id fs = Some f -> find_frame j fs = Some g -> f <> g ->
  Nat.eqb j id = false.
Proof.
  intros Hf Hg Hne. destruct (Nat.eqb j id) eqn:H; [|reflexivity].
  apply Nat.eqb_eq in H as ->. congruence.
Qed.

Lemma Math_min_le_l (a b : Q) : (Math_min a b <= a)%Q.
Proof.
  unfold Math_min. destruct (Qle_bool a b) eqn:H.
  - apply Qle_refl.
  - destruct (Qlt_le_dec b a) as [Hlt|Hle].
    + now apply Qlt_le_weak.
    + apply Qle_bool_iff in Hle. congruence.
Qed.

Lemma Math_min_le_r (a b : Q) : (Math_min a b <= b)%Q.
Proof.
  unfold Math_min. destruct (Qle_bool a b) eqn:H.
  - now apply Qle_bool_iff.
  - apply Qle_refl.
Qed.

(** ** The hook, step by step *)

Ltac hook_eval t :=
  eval cbv [Hook.init Hook.run Hook.observe fold_left
            Hook.step Hook.startListening Hook.stopListening
            Hook.stopSpeaking Hook.translateText Hook.translateAndSpeak
            Hook.translateAndSpeak_translated Hook.translateAndSpeak_spoken
            Hook.translateAndSpeak_catch Hook.translateAndSpeak_finally
            Hook.startListening_recognized Hook.startListening_catch
            Hook.recognition_onError Hook.recognition_onResult
            Hook.onError Hook.toast Hook.onTranslationComplete
            SpeechService.onresult SpeechService.onerror
            SpeechService.recognizeSpeech SpeechService.synthesizeSpeech
            SpeechService.stopSpeaking SpeechService.stopListening
            SpeechService.speaking SpeechService.isSupported
            seq skip suspend setIsListening setIsTranslating setIsSpeaking
            emit emit_all with_flags with_abortController with_recognizer
            with_frames with_next_id with_synth_queue
            props platform flags abortController recognizer frames next_id
            synth_queue log isListening isTranslating isSpeaking has_recognition
            has_synthesis negb andb] in t.

(** Runs the code of the hook in the goal. *)
Ltac unfold_hook :=
  match goal with
  | |- ?g => let g' := hook_eval g in change g'
  end.

(** Runs the innermost step of a run, on a state that is known. *)
Ltac eval_step :=
  match goal with
  | |- context [Hook.step ?s ?i] =>
      lazymatch s with
      | context [Hook.step _ _] => fail
      | _ => let t := hook_eval (Hook.step s i) in
             let t' := eval cbn in t in
             change (Hook.step s i) with t'
      end
  end.

Ltac exec := unfold_hook; cbn.

Ltac case_split :=
  match goal with
  | |- context [match ?x with _ => _ end] => is_var x; destruct x
  | |- context [match ?x with _ => _ end] =>
      lazymatch x with
      | context [match _ with _ => _ end] => fail
      | _ => destruct x eqn:?
      end
  end; cbn.

Ltac other_frame :=
  first [ assumption
        | eapply find_distinct; [eassumption | eassumption | discriminate] ].

Ltac split_log :=
  unfold completions, translations, utterances, errors, captures;
  rewrite <- ?app_assoc, ?pick_app; cbn;
  rewrite ?console_is_silent by reflexivity; cbn; rewrite ?app_nil_r.

(** C1 (as amended): [startListening()] is not guarded by the status
    flags.  On a platform that supports speech it does the same in every
    state, idle or not: it sets [isListening], makes a new abort
    controller and calls [recognition.start()].  When that call returns,
    a new capture is started and [isListening] stays set; when it throws,
    as a recognizer does that is already started, no capture is started,
    [isListening] is cleared again and the message of the exception goes
    to the error callback and to a toast.  Either way [isTranslating],
    [isSpeaking] and the suspended activations are left as they are.
    Only on a platform without speech support does it start no capture
    and change no flag, and it then reports to the error callback. *)
Theorem startListening_ignores_state (s : State) (message : jsstring) :
  let from := p_fromLanguage (props s) in
  let started := Hook.step s StartListening in
  let refused := Hook.step s (StartListeningThrows message) in
  if SpeechService.isSupported s then
    (flags started = {| isListening := true;
                        isTranslating := isTranslating (flags s);
                        isSpeaking := isSpeaking (flags s) |}
     /\ log started = log s ++ [SetIsListening true; NewAbortController;
                                RecognitionStart from]
     /\ captures (log started) = captures (log s) ++ [from]
     /\ recognizer started = Some Pending
     /\ frames started = frames s)
    /\ (flags refused = {| isListening := false;
                           isTranslating := isTranslating (flags s);
                           isSpeaking := isSpeaking (flags s) |}
        /\ log refused
           = log s ++ [SetIsListening true; NewAbortController;
                       SetIsListening false; OnError message;
                       Toast (js "Speech recognition failed") message true]
        /\ captures (log refused) = captures (log s)
        /\ recognizer refused = Some Settled
        /\ frames refused = frames s)
  else
    refused = started
    /\ flags started = flags s
    /\ captures (log started) = captures (log s)
    /\ errors (log started)
       = errors (log s)
         ++ [js "Speech recognition is not supported in this browser"].
Proof.
  destruct s as [p [[] []] [l t sp] ac r fs n q lg]; cbn.
  all: split_log; rewrite <- ?app_assoc; repeat split; reflexivity.
Qed.

(** C1 as stated fails: while a translation is in flight, a call of
    [startListening()] sets [isListening] and starts a capture. *)
Lemma startListening_while_translating :
  let s := Hook.run (Hook.init en_es browser) [TranslateText hello] in
  let s' := Hook.step s StartListening in
  flags s = translating
  /\ flags s' = {| isListening := true; isTranslating := true;
                   isSpeaking := false |}
  /\ captures (log s) = []
  /\ captures (log s') = [js "en-US"].
Proof. repeat split. Qed.

(** *** The flags during one run *)

Lemma run_invariant_staged (s : State) :
  run_invariant s -> well_staged (flags s) = true.
Proof.
  unfold run_invariant, well_staged.
  destruct (frames s) as [|[j [text c|text tr res]] [|]]; try contradiction.
  - intros [-> ->]. now destruct (isListening (flags s)).
  - intros [-> _]. reflexivity.
  - intros (-> & -> & _). now destruct (isSpeaking (flags s)).
Qed.

Lemma run_invariant_start (s : State) (i : input) :
  frames s = [] -> capture_pending s = false -> flags s = Hook.idle ->
  starts_run i = true -> run_invariant (Hook.step s i).
Proof.
  destruct s as [p [rec syn] [l t sp] ac rz fs n q lg];
    unfold capture_pending; cbn.
  intros -> Hrz Hfl. injection Hfl as -> -> ->.
  destruct i; try discriminate; intros _; unfold run_invariant; exec;
    repeat case_split; auto.
  split; [reflexivity|]. destruct rz as [[]|]; discriminate.
Qed.

Lemma run_invariant_step (s : State) (i : input) :
  starts_run i = false -> run_invariant s -> run_invariant (Hook.step s i).
Proof.
  destruct s as [p [rec syn] [l t sp] ac r fs n q lg].
  unfold run_invariant; cbn.
  destruct fs as [|[j [text c|text tr res]] [|]]; try contradiction;
    intros Hi Hinv; destruct i; try discriminate; exec;
    repeat case_split; rewrite ?Nat.eqb_refl; cbn;
    unfold translating in *; intuition (subst; congruence).
Qed.

Lemma run_invariant_observe (rest : list input) :
  forall s,
    run_invariant s ->
    forallb (fun i => negb (starts_run i)) rest = true ->
    Forall (fun f => well_staged f = true) (Hook.observe s rest).
Proof.
  induction rest as [|i rest IH]; intros s Hs Hrest; cbn; [constructor|].
  cbn in Hrest. apply andb_true_iff in Hrest as [Hi Hrest].
  apply negb_true_iff in Hi.
  pose proof (run_invariant_step s i Hi Hs) as Hs'.
  constructor; [now apply run_invariant_staged | now apply IH].
Qed.

(** C2 (as amended): during one pipeline run that starts with nothing in
    flight (no activation is suspended, no promise of [recognizeSpeech] is
    pending, the flags are idle; the run is a call of [startListening] or
    [translateText] followed by anything but another such call), at every
    observable point [isListening] is never true together with
    [isTranslating] or [isSpeaking], and [isSpeaking] is true only while
    [isTranslating] is true as well: [isTranslating] stays set during
    playback, until the run ends. *)
Theorem flags_staged_in_single_run
  (s : State) (first : input) (rest : list input) :
  frames s = [] -> capture_pending s = false -> flags s = Hook.idle ->
  starts_run first = true ->
  forallb (fun i => negb (starts_run i)) rest = true ->
  Forall (fun f => well_staged f = true) (Hook.observe s (first :: rest)).
Proof.
  intros Hfs Hrz Hfl Hfirst Hrest. cbn [Hook.observe].
  pose proof (run_invariant_start s first Hfs Hrz Hfl Hfirst) as Hs.
  constructor; [now apply run_invariant_staged|].
  now apply run_invariant_observe.
Qed.

(** A second run, by voice and with a stop request during playback, after
    a first run has completed. *)
Lemma flags_staged_witness :
  let s := Hook.run (Hook.init en_es browser)
             [TranslateText hello; TranslationSettled 0 (answers heard);
              UtteranceEnd 0] in
  let rest := [RecognitionResult hello (9 # 10);
               TranslationSettled 1 (answers heard); StopSpeaking;
               UtteranceEnd 1] in
  frames s = [] /\ capture_pending s = false /\ flags s = Hook.idle
  /\ starts_run StartListening = true
  /\ forallb (fun i => negb (starts_run i)) rest = true
  /\ Hook.observe s (StartListening :: rest)
     = [listening; translating; playing; translating; Hook.idle]
  /\ Forall (fun f => well_staged f = true)
       (Hook.observe s (StartListening :: rest)).
Proof.
  intros s rest.
  split; [reflexivity|]. split; [reflexivity|]. split; [reflexivity|].
  split; [reflexivity|]. split; [reflexivity|]. split; [reflexivity|].
  exact (flags_staged_in_single_run s StartListening rest
           eq_refl eq_refl eq_refl eq_refl eq_refl).
Defined.

(** C2 as stated fails: while the translation of a typed text is played
    back, [isTranslating] and [isSpeaking] are both true. *)
Lemma two_flags_during_playback :
  Hook.observe (Hook.init en_es browser)
    [TranslateText hello; TranslationSettled 0 (answers heard)]
  = [translating; playing]
  /\ count_true playing = 2%nat.
Proof. split; reflexivity. Qed.

(** *** From the translator's answer to the end of playback *)

Lemma step_translated (s : State) (id : nat) (text : jsstring) (c : Q)
  (net : network) :
  find_frame id (frames s) = Some (AwaitTranslation text c) ->
  has_synthesis (platform s) = true ->
  let tr := TranslationService.translateText net (request (props s) text) in
  let s1 := Hook.step s (TranslationSettled id net) in
  flags s1 = {| isListening := isListening (flags s);
                isTranslating := isTranslating (flags s);
                isSpeaking := true |}
  /\ log s1
     = log s ++ Hook.translation_console net (request (props s) text)
       ++ [SetIsSpeaking true; Speak (spoken (props s) (translatedText tr))]
  /\ find_frame id (frames s1)
     = Some (AwaitSynthesis text tr (Hook.make_result (props s) text c tr))
  /\ props s1 = props s /\ platform s1 = platform s.
Proof.
  destruct s as [p [rec syn] [l t sp] ac rz fs n q lg]; cbn.
  intros Hf ->. exec. rewrite Hf. cbn.
  repeat split.
  - now rewrite <- !app_assoc.
  - eapply find_replace_same; eauto.
Qed.

Lemma step_spoken (s : State) (id : nat) (text : jsstring)
  (tr : TranslationResponse) (r : VoiceTranslationResult) :
  find_frame id (frames s) = Some (AwaitSynthesis text tr r) ->
  let s2 := Hook.step s (UtteranceEnd id) in
  flags s2 = {| isListening := isListening (flags s);
                isTranslating := false; isSpeaking := false |}
  /\ completions (log s2) = completions (log s) ++ [r]
  /\ errors (log s2) = errors (log s).
Proof.
  destruct s as [p [rec syn] [l t sp] ac rz fs n q lg]; cbn.
  intros Hf. exec. rewrite Hf. cbn. split_log. repeat split.
Qed.

(** Nothing but the end of its own playback touches an activation that
    is suspended on playback. *)
Lemma step_keeps_playback (s : State) (i : input) (id : nat)
  (text : jsstring) (tr : TranslationResponse) (r : VoiceTranslationResult) :
  find_frame id (frames s) = Some (AwaitSynthesis text tr r) ->
  ends_playback id i = false ->
  find_frame id (frames (Hook.step s i)) = Some (AwaitSynthesis text tr r).
Proof.
  destruct s as [p [rec syn] [l t sp] ac rz fs n q lg]; cbn.
  intros Hf Hi. destruct i; cbn in Hi; exec; repeat case_split;
    try rewrite find_replace_other by other_frame;
    try rewrite find_remove_other by other_frame;
    auto using find_frame_app.
Qed.

Lemma run_keeps_playback (mid : list input) :
  forall s id text tr r,
    find_frame id (frames s) = Some (AwaitSynthesis text tr r) ->
    forallb (fun i => negb (ends_playback id i)) mid = true ->
    find_frame id (frames (Hook.run s mid))
    = Some (AwaitSynthesis text tr r).
Proof.
  induction mid as [|i mid IH]; intros s id text tr r Hf Hmid; cbn;
    [exact Hf|].
  cbn in Hmid. apply andb_true_iff in Hmid as [Hi Hmid].
  apply negb_true_iff in Hi.
  apply IH; [|exact Hmid].
  now apply step_keeps_playback.
Qed.

(** C3: when the remote translation call fails (no key, a network error,
    a status that is not OK, a body that does not parse), [translateText]
    returns the original text with confidence 0; the pipeline goes on to
    the Speaking stage and speaks the original text; the error callback
    is not invoked, neither then nor when playback ends, and the run
    completes with the original text as its translation. *)
Theorem translation_failure_degrades
  (net : network) (req : TranslationRequest) (s : State) (id : nat)
  (text : jsstring) (c : Q) :
  remote_fails net = true ->
  find_frame id (frames s) = Some (AwaitTranslation text c) ->
  has_synthesis (platform s) = true ->
  let s1 := Hook.step s (TranslationSettled id net) in
  let s2 := Hook.step s1 (UtteranceEnd id) in
  TranslationService.translateText net req
  = {| translatedText := req_text req; confidence := 0 |}
  /\ isSpeaking (flags s1) = true
  /\ utterances (log s1) = utterances (log s) ++ [spoken (props s) text]
  /\ errors (log s1) = errors (log s)
  /\ errors (log s2) = errors (log s)
  /\ completions (log s2)
     = completions (log s)
       ++ [{| originalText := text; vt_translatedText := text;
              fromLanguage := p_fromLanguage (props s);
              toLanguage := p_toLanguage (props s);
              vt_confidence := Math_min c 0 |}].
Proof.
  intros Hfail Hf Hsyn s1 s2.
  destruct (step_translated s id text c net Hf Hsyn)
    as (Hflags & Hlog & Hf1 & _).
  destruct (step_spoken _ _ _ _ _ Hf1) as (_ & Hc2 & He2).
  fold s1 in Hflags, Hlog, Hf1, Hc2, He2. fold s2 in Hc2, He2.
  rewrite (remote_fails_fallback net (request (props s) text) Hfail)
    in Hlog, Hc2.
  cbn [translatedText req_text request] in Hlog.
  assert (He1 : errors (log s1) = errors (log s))
    by (rewrite Hlog; now split_log).
  assert (Hc1 : completions (log s1) = completions (log s))
    by (rewrite Hlog; now split_log).
  split; [now apply remote_fails_fallback|].
  split; [now rewrite Hflags|].
  split; [rewrite Hlog; now split_log|].
  split; [exact He1|].
  split; [now rewrite He2|].
  rewrite Hc2, Hc1. reflexivity.
Qed.

(** The network is down while ["Hello"], captured with confidence 0.9,
    is being translated. *)
Lemma translation_failure_witness :
  remote_fails offline = true
  /\ find_frame 0 (frames captured) = Some (AwaitTranslation hello (9 # 10))
  /\ has_synthesis (platform captured) = true
  /\ flags (Hook.step captured (TranslationSettled 0 offline)) = playing
  /\ completions
       (log (Hook.run captured [TranslationSettled 0 offline; UtteranceEnd 0]))
     = [{| originalText := hello; vt_translatedText := hello;
           fromLanguage := js "en-US"; toLanguage := js "es-ES";
           vt_confidence := 0 |}]
  /\ errors
       (log (Hook.run captured [TranslationSettled 0 offline; UtteranceEnd 0]))
     = [].
Proof.
  pose proof (translation_failure_degrades offline (request en_es hello)
                captured 0 hello (9 # 10) eq_refl eq_refl eq_refl)
    as (_ & _ & _ & _ & He & Hc).
  split; [reflexivity|]. split; [reflexivity|]. split; [reflexivity|].
  split; [reflexivity|]. split; [exact Hc | exact He].
Defined.

(** *** Activations and their ids *)

Lemma find_frame_fresh n fs : ids_below n fs = true -> find_frame n fs = None.
Proof.
  unfold ids_below. induction fs as [|[j f] fs IH]; cbn; [reflexivity|].
  intros H. apply andb_true_iff in H as [Hj Hfs].
  apply Nat.ltb_lt in Hj.
  destruct (Nat.eqb j n) eqn:E; [apply Nat.eqb_eq in E; lia | auto].
Qed.

Lemma ids_below_S n fs : ids_below n fs = true -> ids_below (S n) fs = true.
Proof.
  unfold ids_below. rewrite !forallb_forall. intros H e He.
  specialize (H e He). apply Nat.ltb_lt in H. apply Nat.ltb_lt. lia.
Qed.

Lemma ids_below_suspend n fs f :
  ids_below n fs = true -> ids_below (S n) (fs ++ [(n, f)]) = true.
Proof.
  intros H. unfold ids_below. rewrite forallb_app.
  fold (ids_below (S n) fs). rewrite (ids_below_S _ _ H).
  cbn [forallb fst andb]. rewrite andb_true_r. apply Nat.ltb_lt. lia.
Qed.

Lemma ids_below_remove n j fs :
  ids_below n fs = true -> ids_below n (remove_frame j fs) = true.
Proof.
  unfold ids_below. induction fs as [|[k f] fs IH]; cbn; [reflexivity|].
  intros H. apply andb_true_iff in H as [Hk Hfs].
  destruct (Nat.eqb k j); cbn; [exact Hfs|].
  apply andb_true_iff. split; [exact Hk | exact (IH Hfs)].
Qed.

Lemma ids_below_replace n j g fs :
  ids_below n fs = true -> ids_below n (replace_frame j g fs) = true.
Proof.
  unfold ids_below. induction fs as [|[k f] fs IH]; cbn; [reflexivity|].
  intros H. apply andb_true_iff in H as [Hk Hfs].
  destruct (Nat.eqb k j); cbn; apply andb_true_iff; split; auto.
Qed.

Lemma step_ids_below s i :
  ids_below (next_id s) (frames s) = true ->
  ids_below (next_id (Hook.step s i)) (frames (Hook.step s i)) = true.
Proof.
  destruct s as [p [rec syn] [l t sp] ac rz fs n q lg]; cbn.
  intros H. destruct i; exec; repeat case_split;
    auto using ids_below_suspend, ids_below_remove, ids_below_replace.
Qed.

Lemma step_props_platform s i :
  props (Hook.step s i) = props s /\ platform (Hook.step s i) = platform s.
Proof.
  destruct s as [p [rec syn] [l t sp] ac rz fs n q lg]; cbn.
  destruct i; exec; repeat case_split; auto.
Qed.

Lemma run_ids_below inputs :
  forall s,
    ids_below (next_id s) (frames s) = true ->
    ids_below (next_id (Hook.run s inputs)) (frames (Hook.run s inputs)) = true.
Proof.
  induction inputs as [|i inputs IH]; intros s H; [exact H|].
  change (Hook.run s (i :: inputs)) with (Hook.run (Hook.step s i) inputs).
  apply IH. now apply step_ids_below.
Qed.

Lemma run_props_platform inputs :
  forall s,
    props (Hook.run s inputs) = props s
    /\ platform (Hook.run s inputs) = platform s.
Proof.
  induction inputs as [|i inputs IH]; intros s; [split; reflexivity|].
  change (Hook.run s (i :: inputs)) with (Hook.run (Hook.step s i) inputs).
  destruct (IH (Hook.step s i)) as [-> ->]. apply step_props_platform.
Qed.

Lemma step_enters s o text c :
  enters s o text c ->
  ids_below (next_id s) (frames s) = true ->
  find_frame (next_id s) (frames (Hook.step s o))
  = Some (AwaitTranslation text c).
Proof.
  destruct s as [p [rec syn] [l t sp] ac rz fs n q lg]; cbn.
  intros He Hfs. pose proof (find_frame_fresh _ _ Hfs) as Hfresh.
  assert (Hn : forall f, find_frame n (fs ++ [(n, f)]) = Some f).
  { intros f. clear - Hfresh. induction fs as [|[k g] fs IH]; cbn in *.
    - now rewrite Nat.eqb_refl.
    - destruct (Nat.eqb k n); [discriminate | auto]. }
  destruct o; try contradiction; cbn in He.
  - destruct He as [-> ->]. exec. apply Hn.
  - destruct He as (-> & -> & -> & Htext). exec. rewrite Htext. cbn. apply Hn.
Qed.

(** Nothing but the answer of the translator touches an activation that
    is suspended on its translation. *)
Lemma step_keeps_translation (s : State) (i : input) (id : nat)
  (text : jsstring) (c : Q) :
  find_frame id (frames s) = Some (AwaitTranslation text c) ->
  settles id i = false ->
  find_frame id (frames (Hook.step s i)) = Some (AwaitTranslation text c).
Proof.
  destruct s as [p [rec syn] [l t sp] ac rz fs n q lg]; cbn.
  intros Hf Hi. destruct i; cbn in Hi; exec; repeat case_split;
    try rewrite find_replace_other by other_frame;
    try rewrite find_remove_other by other_frame;
    auto using find_frame_app; congruence.
Qed.

Lemma run_keeps_translation (before : list input) :
  forall s id text c,
    find_frame id (frames s) = Some (AwaitTranslation text c) ->
    forallb (fun i => negb (settles id i)) before = true ->
    find_frame id (frames (Hook.run s before))
    = Some (AwaitTranslation text c).
Proof.
  induction before as [|i before IH]; intros s id text c Hf Hb; cbn;
    [exact Hf|].
  cbn in Hb. apply andb_true_iff in Hb as [Hi Hb].
  apply negb_true_iff in Hi.
  apply IH; [|exact Hb].
  now apply step_keeps_translation.
Qed.

Lemma run_app (s : State) (l1 l2 : list input) :
  Hook.run s (l1 ++ l2) = Hook.run (Hook.run s l1) l2.
Proof. apply fold_left_app. Qed.

(** C4: in every session that completes, whatever happened before it,
    whatever happens while its translation is awaited and whatever
    happens between the translator's answer and the end of playback, the
    result delivered to the completion callback has the confidence
    [Math.min(c, translation confidence)], where [c] is the confidence of
    the captured utterance (1.0 for a text handed in directly): the
    result is built once and never recomputed, and its confidence exceeds
    neither of the two. *)
Theorem final_confidence_is_minimum
  (p : Props) (pf : Platform) (history : list input) (o : input)
  (text : jsstring) (c : Q) (before : list input) (net : network)
  (mid : list input) :
  let s0 := Hook.run (Hook.init p pf) history in
  let id := next_id s0 in
  has_synthesis pf = true ->
  enters s0 o text c ->
  forallb (fun i => negb (settles id i)) before = true ->
  forallb (fun i => negb (ends_playback id i)) mid = true ->
  let tr := TranslationService.translateText net (request p text) in
  let s1 := Hook.run s0 (o :: before ++ TranslationSettled id net :: mid) in
  let s2 := Hook.step s1 (UtteranceEnd id) in
  exists r,
    completions (log s2) = completions (log s1) ++ [r]
    /\ vt_confidence r = Math_min c (confidence tr)
    /\ (vt_confidence r <= c)%Q /\ (vt_confidence r <= confidence tr)%Q
    /\ shape r = (text, translatedText tr, p_fromLanguage p, p_toLanguage p).
Proof.
  intros s0 id Hsyn Hent Hbefore Hmid tr s1 s2.
  assert (Hids : ids_below (next_id s0) (frames s0) = true)
    by (apply run_ids_below; reflexivity).
  destruct (run_props_platform history (Hook.init p pf)) as [Hp Hpf].
  fold s0 in Hp, Hpf. cbn in Hp, Hpf.
  pose proof (step_enters s0 o text c Hent Hids) as Hf. fold id in Hf.
  destruct (step_props_platform s0 o) as [Hp' Hpf'].
  pose proof (run_keeps_translation before _ _ _ _ Hf Hbefore) as Hf0.
  destruct (run_props_platform before (Hook.step s0 o)) as [Hp0 Hpf0].
  assert (Hsyn' : has_synthesis
                    (platform (Hook.run (Hook.step s0 o) before)) = true)
    by now rewrite Hpf0, Hpf', Hpf.
  destruct (step_translated _ id text c net Hf0 Hsyn') as (_ & _ & Hf1 & _).
  rewrite Hp0, Hp', Hp in Hf1. fold tr in Hf1.
  pose proof (run_keeps_playback mid _ _ _ _ _ Hf1 Hmid) as Hf2.
  assert (Hs1 : s1 = Hook.run
                       (Hook.step (Hook.run (Hook.step s0 o) before)
                          (TranslationSettled id net)) mid).
  { unfold s1.
    change (Hook.run s0 (o :: before ++ TranslationSettled id net :: mid))
      with (Hook.run (Hook.step s0 o)
              (before ++ TranslationSettled id net :: mid)).
    now rewrite run_app. }
  rewrite <- Hs1 in Hf2.
  destruct (step_spoken _ _ _ _ _ Hf2) as (_ & Hc & _).
  exists (Hook.make_result p text c tr).
  split; [exact Hc|]. cbn.
  repeat split; [apply Math_min_le_l | apply Math_min_le_r].
Qed.

(** ["Hello"] captured with confidence 0.9 and translated with 0.95; a
    second capture is started while the translation is awaited; during
    playback a third start is refused and the second capture is
    stopped. *)
Lemma final_confidence_witness :
  let refused := StartListeningThrows (js "recognition has already started") in
  let s0 := Hook.run (Hook.init en_es browser) [StartListening] in
  let id := next_id s0 in
  let s1 := Hook.run s0
              (RecognitionResult hello (9 # 10)
               :: [StartListening]
               ++ TranslationSettled id (answers heard)
               :: [refused; StopListening]) in
  let s2 := Hook.step s1 (UtteranceEnd id) in
  has_synthesis browser = true
  /\ enters s0 (RecognitionResult hello (9 # 10)) hello (9 # 10)
  /\ forallb (fun i => negb (settles id i)) [StartListening] = true
  /\ forallb (fun i => negb (ends_playback id i)) [refused; StopListening]
     = true
  /\ exists r,
       completions (log s2) = completions (log s1) ++ [r]
       /\ vt_confidence r = 9 # 10.
Proof.
  intros refused s0 id s1 s2.
  assert (Hent : enters s0 (RecognitionResult hello (9 # 10)) hello (9 # 10))
    by (repeat split; reflexivity).
  destruct (final_confidence_is_minimum en_es browser [StartListening]
              (RecognitionResult hello (9 # 10)) hello (9 # 10)
              [StartListening] (answers heard) [refused; StopListening]
              eq_refl Hent eq_refl eq_refl)
    as (r & Hlog & Hconf & _).
  split; [reflexivity|]. split; [exact Hent|]. split; [reflexivity|].
  split; [reflexivity|].
  exists r. split; [exact Hlog|].
  rewrite Hconf. vm_compute. reflexivity.
Defined.

(** C6, evaluated: a capture that fails with code [code] leaves the
    flags idle and produces no result, but the error callback is invoked
    twice with the same reason: once by the callback [startListening]
    hands to [recognizeSpeech], once by its [catch] block. *)
Theorem capture_failure_reports_twice (p : Props) (code : jsstring) :
  let s := Hook.run (Hook.init p browser)
             [StartListening; RecognitionError code] in
  let reason := js "Speech recognition error: " ++ code in
  flags s = Hook.idle
  /\ completions (log s) = []
  /\ errors (log s) = [reason; reason].
Proof. repeat split. Qed.

(** C7: when a capture in flight delivers a transcript that is empty or
    whitespace only, the flags go from Listening to Idle; the only
    effects are the console line and [setIsListening(false)]: the
    translator is not called, nothing is spoken, no completion callback
    fires and no activation is suspended. *)
Theorem blank_transcript_returns_to_idle
  (s : State) (transcript : jsstring) (c : Q) :
  flags s = listening ->
  recognizer s = Some Pending ->
  blank transcript = true ->
  let s' := Hook.step s (RecognitionResult transcript c) in
  flags s' = Hook.idle
  /\ log s' = log s ++ [ConsoleLog (js "Speech recognition result:");
                        SetIsListening false]
  /\ translations (log s') = translations (log s)
  /\ utterances (log s') = utterances (log s)
  /\ completions (log s') = completions (log s)
  /\ frames s' = frames s.
Proof.
  destruct s as [p [rec syn] [l t sp] ac rz fs n q lg]; cbn.
  intros Hfl -> Hblank. injection Hfl as -> -> ->.
  exec. rewrite (trim_blank _ Hblank). cbn.
  split_log. repeat split.
Qed.

(** The recognizer hears a space, a tab and a no-break space. *)
Lemma blank_transcript_witness :
  flags capturing = listening
  /\ recognizer capturing = Some Pending
  /\ blank [32; 9; 160]%N = true
  /\ flags (Hook.step capturing (RecognitionResult [32; 9; 160]%N 1))
     = Hook.idle
  /\ translations
       (log (Hook.step capturing (RecognitionResult [32; 9; 160]%N 1)))
     = [].
Proof.
  destruct (blank_transcript_returns_to_idle capturing [32; 9; 160]%N 1
              eq_refl eq_refl eq_refl)
    as (Hflags & _ & Htr & _).
  split; [reflexivity|]. split; [reflexivity|]. split; [reflexivity|].
  split; [exact Hflags | exact Htr].
Defined.

(** C8, evaluated: [stopListening()] during Listening sets the flags to
    Idle and aborts the controller, but nothing consults the controller
    and the pending recognition promise stays armed: when the recognizer
    then delivers what it has heard, the run resumes through Translating
    and Speaking and the completion callback fires. *)
Theorem stop_does_not_cancel_run (p : Props) (c : Q) :
  let s1 := Hook.run (Hook.init p browser) [StartListening; StopListening] in
  let resumed := [RecognitionResult hello c;
                  TranslationSettled 0 (answers heard);
                  UtteranceEnd 0] in
  flags s1 = Hook.idle
  /\ abortController s1 = Some true
  /\ completions (log s1) = []
  /\ Hook.observe s1 resumed = [translating; playing; Hook.idle]
  /\ completions (log (Hook.run s1 resumed))
     = [{| originalText := hello; vt_translatedText := js "Hola";
           fromLanguage := p_fromLanguage p;
           toLanguage := p_toLanguage p;
           vt_confidence := Math_min c (19 # 20) |}].
Proof. repeat split. Qed.

(** C9 (as amended): for every text that is not blank, whatever the
    network answers and however playback ends, the text path
    [translateText(text)] goes through Translating, Speaking and back to
    Idle exactly as the voice path does after capturing that text, calls
    the translator and playback with the same arguments, reports the same
    errors and completes with a result of the same shape (the same texts
    and languages; the confidence is computed from 1.0 instead of the
    capture confidence).  With a capture confidence of 1.0 the voice path
    performs the effects of the text path, after those of its Listening
    stage. *)
Theorem direct_path_matches_voice_path
  (p : Props) (text : jsstring) (c : Q) (net : network)
  (o : option jsstring) :
  truthy_string (trim text) = true ->
  let downstream := [TranslationSettled 0 net; playback_outcome 0 o] in
  let direct := TranslateText text :: downstream in
  let voice k := StartListening :: RecognitionResult text k :: downstream in
  let d := Hook.run (Hook.init p browser) direct in
  let v := Hook.run (Hook.init p browser) (voice c) in
  Hook.observe (Hook.init p browser) direct
  = [translating; playing; Hook.idle]
  /\ Hook.observe (Hook.init p browser) (voice c)
     = listening :: Hook.observe (Hook.init p browser) direct
  /\ map shape (completions (log v)) = map shape (completions (log d))
  /\ translations (log v) = translations (log d)
  /\ utterances (log v) = utterances (log d)
  /\ errors (log v) = errors (log d)
  /\ log (Hook.run (Hook.init p browser) (voice 1))
     = [SetIsListening true; NewAbortController;
        RecognitionStart (p_fromLanguage p);
        ConsoleLog (js "Speech recognition result:");
        SetIsListening false] ++ log d.
Proof.
  intros Htext. cbn zeta. cbn [Hook.run Hook.observe fold_left].
  destruct o as [code|]; cbn [playback_outcome];
    repeat (eval_step; rewrite ?Htext); cbn.
  all: split_log; repeat split; reflexivity.
Qed.

(** ["Hello"], typed or said, with the network down and playback
    ending. *)
Lemma direct_path_witness :
  truthy_string (trim hello) = true
  /\ Hook.observe (Hook.init en_es browser)
       [StartListening; RecognitionResult hello (9 # 10);
        TranslationSettled 0 offline; UtteranceEnd 0]
     = listening
       :: Hook.observe (Hook.init en_es browser)
            [TranslateText hello; TranslationSettled 0 offline;
             UtteranceEnd 0].
Proof.
  split; [reflexivity|].
  exact (proj1 (proj2 (direct_path_matches_voice_path en_es hello (9 # 10)
                         offline None eq_refl))).
Defined.

(** C9 as stated fails on the empty text: typed, it is sent to the
    translator and the flags show Translating; captured, it ends the run
    with the translator never called. *)
Lemma blank_text_distinguishes_paths :
  Hook.observe (Hook.init en_es browser) [TranslateText []] = [translating]
  /\ translations
       (log (Hook.run (Hook.init en_es browser) [TranslateText []]))
     = [request en_es []]
  /\ Hook.observe (Hook.init en_es browser)
       [StartListening; RecognitionResult [] 1]
     = [listening; Hook.idle]
  /\ translations
       (log (Hook.run (Hook.init en_es browser)
               [StartListening; RecognitionResult [] 1]))
     = [].
Proof. repeat split. Qed.

(** C10: for every request and every behaviour of the network, the
    confidence the translator returns is one of two constants, and which
    one depends on the remote call only through its success: 0.95 when the
    call succeeds (the URL could be built, the endpoint answers with a
    status that is OK and a body that parses and can be read), whatever
    the response holds, and 0 when it fails at any of these points.  On
    the text path, whose capture confidence is the default 1.0, the
    completed result carries exactly the translator's confidence. *)
Theorem translator_confidence_is_constant
  (net : network) (p : Props) (rec : bool) (text : jsstring) :
  let req := request p text in
  let tr := TranslationService.translateText net req in
  let s := Hook.run
             (Hook.init p {| has_recognition := rec; has_synthesis := true |})
             [TranslateText text; TranslationSettled 0 net; UtteranceEnd 0] in
  confidence tr = (if call_succeeds net then 19 # 20 else 0)
  /\ (confidence tr = 19 # 20 \/ confidence tr = 0)
  /\ exists r, completions (log s) = [r] /\ vt_confidence r = confidence tr.
Proof.
  intros req tr s.
  assert (H : confidence tr = (if call_succeeds net then 19 # 20 else 0)).
  { subst tr. pose proof (translateText_try_outcome net req) as Ho.
    destruct (TranslationService.translateText_try net req) as [r|e] eqn:H;
      rewrite Ho.
    - rewrite (translateText_normal _ _ _ H).
      exact (translateText_try_confidence _ _ _ H).
    - now rewrite (translateText_throw _ _ _ H). }
  assert (Hc : confidence tr = 19 # 20 \/ confidence tr = 0)
    by (rewrite H; destruct (call_succeeds net); auto).
  split; [exact H|]. split; [exact Hc|].
  exists (Hook.make_result p text 1 tr). split.
  - subst s. unfold Hook.run, fold_left. exec. now split_log.
  - cbn. destruct Hc as [-> | ->]; reflexivity.
Qed.

(** * More of the code *)

(** ** More on the translation service *)

Lemma candidate_text_trimmed (data : json) (t : jsstring) :
  TranslationService.candidate_text data = Normal (Some t) ->
  exists s, t = trim s.
Proof.
  unfold TranslationService.candidate_text, bind.
  destruct (dot (Name (js "candidates")) data) as [candidates|e];
    [|discriminate].
  unfold opt_trim.
  destruct (opt_dot (Name (js "text")) _) as [[| | |s| |]|];
    try discriminate.
  intros H. injection H as <-. now exists s.
Qed.

(** What the [try] block returns, once it has a response to read. *)
Lemma translateText_try_text (net : network) (req : TranslationRequest)
  (r : TranslationResponse) :
  TranslationService.translateText_try net req = Normal r ->
  translatedText r = req_text req
  \/ (truthy_string (translatedText r) = true
      /\ exists s, translatedText r = trim s).
Proof.
  unfold TranslationService.translateText_try, bind.
  destruct (TranslationService.getApiKey net) as [apiKey|]; [|discriminate].
  destruct (interpolate apiKey); [|discriminate].
  destruct (api_fetch net) as [|status [data|]]; try discriminate;
    destruct (negb (ok status)); try discriminate.
  destruct (TranslationService.candidate_text data) as [[t|]|e] eqn:Hc;
    [| |discriminate]; intros H; injection H as <-; cbn; [|now left].
  unfold string_or. destruct (truthy_string t) eqn:Ht; [right|now left].
  split; [exact Ht | exact (candidate_text_trimmed data t Hc)].
Qed.

Lemma translated_text_cases
  (net : network) (req : TranslationRequest) :
  let t := translatedText (TranslationService.translateText net req) in
  t = req_text req \/ (truthy_string t = true /\ exists s, t = trim s).
Proof.
  cbn zeta. unfold TranslationService.translateText.
  destruct (TranslationService.translateText_try net req) as [r|e] eqn:H;
    [|now left].
  exact (translateText_try_text net req r H).
Qed.

(** X1: whatever the network does, the text the translator returns is
    either the text it was given or a candidate of the response that is
    not empty and has no whitespace at either end. *)
Theorem translated_text_is_original_or_trimmed
  (net : network) (req : TranslationRequest) :
  let t := translatedText (TranslationService.translateText net req) in
  t = req_text req
  \/ (truthy_string t = true
      /\ trim t = t
      /\ not_whitespace (first_unit t) = true
      /\ not_whitespace (last_unit t) = true).
Proof.
  destruct (translated_text_cases net req) as [Ho | [Ht [s Hs]]];
    [now left | right].
  split; [exact Ht|]. cbn zeta in Hs. rewrite Hs.
  split; [apply trim_idempotent|].
  split; [apply trim_first | apply trim_last].
Qed.

(** X2: given a text that is not empty, the translator never returns an
    empty one, so there is always something to speak. *)
Theorem translated_text_is_not_empty
  (net : network) (req : TranslationRequest) :
  truthy_string (req_text req) = true ->
  truthy_string (translatedText (TranslationService.translateText net req))
  = true.
Proof.
  intros Hreq.
  destruct (translated_text_cases net req) as [-> | [Ht _]]; assumption.
Qed.

(** A text that is typed, the network being down. *)
Lemma translated_text_witness :
  truthy_string (req_text (request en_es hello)) = true
  /\ truthy_string
       (translatedText
          (TranslationService.translateText offline (request en_es hello)))
     = true.
Proof.
  split; [reflexivity|].
  apply (translated_text_is_not_empty offline (request en_es hello)).
  reflexivity.
Defined.

Lemma getApiKey_local (net : network) (c : N) (k : jsstring) :
  VITE_GEMINI_API_KEY net = Some (c :: k) ->
  TranslationService.getApiKey net = Normal (Some (JStr (c :: k))).
Proof.
  intros H. unfold TranslationService.getApiKey. now rewrite H.
Qed.

(** X3: a key in the environment takes precedence: when
    [VITE_GEMINI_API_KEY] is set and not empty, the server is not asked
    for a key, so neither the result of [translateText] nor what it
    writes to the console depends on what that request would answer. *)
Theorem local_key_takes_precedence
  (net : network) (kf : fetch_result) (req : TranslationRequest)
  (c : N) (k : jsstring) :
  VITE_GEMINI_API_KEY net = Some (c :: k) ->
  TranslationService.getApiKey net = Normal (Some (JStr (c :: k)))
  /\ TranslationService.translateText (with_key_fetch kf net) req
     = TranslationService.translateText net req
  /\ Hook.translation_console (with_key_fetch kf net) req
     = Hook.translation_console net req.
Proof.
  intros H.
  assert (Htry : TranslationService.translateText_try (with_key_fetch kf net)
                   req
                 = TranslationService.translateText_try net req).
  { unfold TranslationService.translateText_try.
    rewrite (getApiKey_local net c k H).
    rewrite (getApiKey_local (with_key_fetch kf net) c k H).
    reflexivity. }
  split; [exact (getApiKey_local net c k H)|]. split.
  - unfold TranslationService.translateText. now rewrite Htry.
  - unfold Hook.translation_console. rewrite Htry.
    cbn [with_key_fetch VITE_GEMINI_API_KEY]. now rewrite H.
Qed.

(** The server is down, the key is in the environment. *)
Lemma local_key_witness :
  VITE_GEMINI_API_KEY (answers heard) = Some (107%N :: js "ey")
  /\ TranslationService.translateText
       (with_key_fetch (FetchResponse 500 None) (answers heard))
       (request en_es hello)
     = TranslationService.translateText (answers heard) (request en_es hello).
Proof.
  split; [reflexivity|].
  exact (proj1 (proj2 (local_key_takes_precedence (answers heard)
                         (FetchResponse 500 None) (request en_es hello)
                         107%N (js "ey") eq_refl))).
Defined.

(** X4: without a usable key in the environment (none, or an empty one),
    [getApiKey] throws exactly when the request for a key is rejected by
    the network, answers a status that is not OK, or answers a body that
    does not parse or is [null]; [translateText] then returns the original
    text with confidence 0, whatever the translation endpoint would have
    answered.  Any other answer is taken as it is: [getApiKey] returns
    what the body holds as [apiKey], also when it holds none. *)
Theorem missing_key_degrades
  (net : network) (req : TranslationRequest) :
  truthy_string
    (match VITE_GEMINI_API_KEY net with Some k => k | None => [] end)
  = false ->
  if key_request_fails (key_fetch net) then
    TranslationService.getApiKey net
    = Throw (Error (js "API key not configured. Please set VITE_GEMINI_API_KEY environment variable for local development."))
    /\ TranslationService.translateText net req
       = {| translatedText := req_text req; confidence := 0 |}
  else
    exists status data,
      key_fetch net = FetchResponse status (Some data)
      /\ TranslationService.getApiKey net
         = Normal (member (Name (js "apiKey")) data).
Proof.
  intros Hkey.
  unfold TranslationService.translateText,
    TranslationService.translateText_try, TranslationService.getApiKey,
    TranslationService.getApiKey_try, key_request_fails.
  destruct (VITE_GEMINI_API_KEY net) as [[|c k]|]; try discriminate.
  all: destruct (key_fetch net) as [|status [data|]];
    cbn [negb orb andb bind]; try (split; reflexivity);
    destruct (ok status); cbn [negb orb andb bind];
    try (split; reflexivity);
    destruct (is_null data) eqn:Hn;
    [rewrite (dot_null _ _ Hn); split; reflexivity|];
    rewrite (dot_member _ _ Hn); exists status, data; split; reflexivity.
Qed.

(** The environment has an empty key and the server answers 403. *)
Lemma missing_key_witness :
  let net := {| VITE_GEMINI_API_KEY := Some [];
                key_fetch := FetchResponse 403 None;
                api_fetch := FetchResponse 200 (Some heard) |} in
  truthy_string
    (match VITE_GEMINI_API_KEY net with Some k => k | None => [] end)
  = false
  /\ key_request_fails (key_fetch net) = true
  /\ TranslationService.translateText net (request en_es hello)
     = {| translatedText := hello; confidence := 0 |}.
Proof.
  intros net. split; [reflexivity|]. split; [reflexivity|].
  exact (proj2 (missing_key_degrades net (request en_es hello) eq_refl)).
Defined.

(** X23: a key that cannot be written into the URL is a failure as well.
    When the server answers an [apiKey] whose conversion to a string
    throws (an object with a property [toString], or an array holding
    one), the translation endpoint is not asked and [translateText]
    returns the original text with confidence 0. *)
Theorem unconvertible_key_degrades
  (net : network) (req : TranslationRequest) (status : N) (data v : json)
  (af : fetch_result) :
  truthy_string
    (match VITE_GEMINI_API_KEY net with Some k => k | None => [] end)
  = false ->
  key_fetch net = FetchResponse status (Some data) ->
  ok status = true ->
  member (Name (js "apiKey")) data = Some v ->
  to_string_throws v = true ->
  TranslationService.translateText net req
  = {| translatedText := req_text req; confidence := 0 |}
  /\ TranslationService.translateText (with_api_fetch af net) req
     = TranslationService.translateText net req.
Proof.
  intros Hkey Hfetch Hok Hm Hv.
  assert (Hn : is_null data = false) by (destruct data; try reflexivity;
                                         discriminate).
  unfold TranslationService.translateText,
    TranslationService.translateText_try, TranslationService.getApiKey,
    TranslationService.getApiKey_try.
  cbn [with_api_fetch VITE_GEMINI_API_KEY key_fetch].
  destruct (VITE_GEMINI_API_KEY net) as [[|c k]|]; try discriminate.
  all: rewrite Hfetch, Hok; cbn [negb]; rewrite (dot_member _ _ Hn), Hm;
    cbn [bind interpolate]; rewrite Hv; split; reflexivity.
Qed.

(** The server answers 200 with an [apiKey] that is the object
    [{toString: 1}]. *)
Lemma unconvertible_key_witness :
  let key := JObj [(js "toString", JNum 1)] in
  let data := JObj [(js "apiKey", key)] in
  let net := {| VITE_GEMINI_API_KEY := None;
                key_fetch := FetchResponse 200 (Some data);
                api_fetch := FetchResponse 200 (Some heard) |} in
  truthy_string
    (match VITE_GEMINI_API_KEY net with Some k => k | None => [] end)
  = false
  /\ key_fetch net = FetchResponse 200 (Some data)
  /\ ok 200 = true
  /\ member (Name (js "apiKey")) data = Some key
  /\ to_string_throws key = true
  /\ TranslationService.translateText net (request en_es hello)
     = {| translatedText := hello; confidence := 0 |}.
Proof.
  intros key data net.
  split; [reflexivity|]. split; [reflexivity|]. split; [reflexivity|].
  split; [reflexivity|]. split; [reflexivity|].
  exact (proj1 (unconvertible_key_degrades net (request en_es hello) 200%N
                  data key FetchRejected
                  eq_refl eq_refl eq_refl eq_refl eq_refl)).
Defined.

Lemma translateText_confidence (net : network) (req : TranslationRequest) :
  confidence (TranslationService.translateText net req) = 19 # 20
  \/ confidence (TranslationService.translateText net req) = 0.
Proof.
  destruct (TranslationService.translateText_try net req) as [r|e] eqn:H.
  - left. rewrite (translateText_normal _ _ _ H).
    exact (translateText_try_confidence _ _ _ H).
  - right. now rewrite (translateText_throw _ _ _ H).
Qed.

Lemma batchTranslate_nth (nets : list network) :
  forall (requests : list TranslationRequest) (i : nat)
         (net : network) (req : TranslationRequest),
    nth_error nets i = Some net ->
    nth_error requests i = Some req ->
    nth_error (TranslationService.batchTranslate nets requests) i
    = Some (TranslationService.translateText net req).
Proof.
  unfold TranslationService.batchTranslate.
  induction nets as [|n nets IH]; intros [|r requests] [|i] net req Hn Hr;
    cbn in *; try discriminate.
  - now injection Hn as ->; injection Hr as ->.
  - now apply IH.
Qed.

(** X5: [batchTranslate] answers every request, in the order of the
    requests: the i-th response is what [translateText] returns for the
    i-th request under what the network did to that request alone.  A
    request that fails therefore costs only its own translation (it comes
    back as its own text with confidence 0), and every confidence in the
    batch is 0.95 or 0. *)
Theorem batchTranslate_is_pointwise
  (nets : list network) (requests : list TranslationRequest) :
  List.length nets = List.length requests ->
  let responses := TranslationService.batchTranslate nets requests in
  List.length responses = List.length requests
  /\ (forall i net req,
        nth_error nets i = Some net ->
        nth_error requests i = Some req ->
        nth_error responses i
        = Some (TranslationService.translateText net req)
        /\ (remote_fails net = true ->
            nth_error responses i
            = Some {| translatedText := req_text req; confidence := 0 |}))
  /\ Forall (fun r => confidence r = 19 # 20 \/ confidence r = 0) responses.
Proof.
  intros Hlen responses. split; [|split].
  - unfold responses, TranslationService.batchTranslate.
    rewrite length_map, length_combine, Hlen. apply Nat.min_id.
  - intros i net req Hn Hr.
    pose proof (batchTranslate_nth nets requests i net req Hn Hr) as H.
    split; [exact H|]. intros Hfail.
    now rewrite <- (remote_fails_fallback net req Hfail).
  - unfold responses, TranslationService.batchTranslate.
    apply Forall_forall. intros r Hr. apply in_map_iff in Hr as [[n q] [<- _]].
    apply translateText_confidence.
Qed.

(** Two requests; the network is down for the second. *)
Lemma batchTranslate_witness :
  List.length [answers heard; offline]
  = List.length [request en_es hello; request en_es (js "Bye")]
  /\ TranslationService.batchTranslate [answers heard; offline]
       [request en_es hello; request en_es (js "Bye")]
     = [{| translatedText := js "Hola"; confidence := 19 # 20 |};
        {| translatedText := js "Bye"; confidence := 0 |}].
Proof.
  split; [reflexivity|].
  destruct (batchTranslate_is_pointwise [answers heard; offline]
              [request en_es hello; request en_es (js "Bye")] eq_refl)
    as (_ & _ & _).
  reflexivity.
Defined.

(** ** More on the speech service *)

Lemma number_or_not_zero (x : option Q) : ~ (number_or x 1 == 0)%Q.
Proof.
  unfold number_or. destruct x as [q|]; [|discriminate].
  destruct (Qeq_bool q 0) eqn:H; [discriminate|].
  now apply Qeq_bool_neq.
Qed.

(** X6: [synthesizeSpeech] cannot be asked for a rate, pitch or volume of
    0, nor for an empty language: [options.x || default] replaces each of
    them by its default (1.0, and [en-US]), so an utterance is never
    silent by its volume. *)
Theorem utterance_never_zero (options : SpeechSynthesisOptions) :
  let u := SpeechService.make_utterance options in
  ~ (utt_rate u == 0)%Q /\ ~ (utt_pitch u == 0)%Q /\ ~ (utt_volume u == 0)%Q
  /\ truthy_string (utt_lang u) = true
  /\ utt_text u = opt_text options.
Proof.
  cbn. repeat split; try apply number_or_not_zero.
  unfold string_or. now destruct (truthy_string (opt_language options)) eqn:H.
Qed.

(** ** The three versions of the translation service *)

Lemma server_key_agrees (net : network) :
  match TranslationService.getApiKey_try net,
        ServerKeyService.getApiKey_try net with
  | Normal a, Normal b => a = b
  | Throw _, Throw _ => True
  | _, _ => False
  end.
Proof.
  unfold TranslationService.getApiKey_try, ServerKeyService.getApiKey_try.
  destruct (key_fetch net) as [|status [data|]]; cbn; auto;
    destruct (negb (ok status)); cbn; auto.
  destruct (dot (Name (js "apiKey")) data); auto.
Qed.

(** X7: with a key in the environment, the service behaves as the
    version that has its key in the code: for every answer of the
    network both return the same response. *)
Theorem agrees_with_embedded_key_version
  (net : network) (req : TranslationRequest) (c : N) (k : jsstring) :
  VITE_GEMINI_API_KEY net = Some (c :: k) ->
  TranslationService.translateText net req
  = EmbeddedKeyService.translateText net req.
Proof.
  intros H.
  unfold TranslationService.translateText, EmbeddedKeyService.translateText,
    TranslationService.translateText_try.
  rewrite (getApiKey_local net c k H). reflexivity.
Qed.

Lemma embedded_key_witness :
  VITE_GEMINI_API_KEY (answers heard) = Some (107%N :: js "ey")
  /\ EmbeddedKeyService.translateText (answers heard) (request en_es hello)
     = {| translatedText := js "Hola"; confidence := 19 # 20 |}.
Proof.
  split; [reflexivity|].
  rewrite <- (agrees_with_embedded_key_version (answers heard)
                (request en_es hello) 107%N (js "ey") eq_refl).
  reflexivity.
Defined.

(** X8: without a key in the environment (none, or an empty one), the
    service behaves as the version that always asks the server for the
    key: for every answer of the network both return the same response;
    only the message of the error they swallow differs. *)
Theorem agrees_with_server_key_version
  (net : network) (req : TranslationRequest) :
  truthy_string
    (match VITE_GEMINI_API_KEY net with Some k => k | None => [] end)
  = false ->
  TranslationService.translateText net req
  = ServerKeyService.translateText net req.
Proof.
  intros Hkey.
  assert (Hget : match TranslationService.getApiKey net,
                       ServerKeyService.getApiKey net with
                 | Normal a, Normal b => a = b
                 | Throw _, Throw _ => True
                 | _, _ => False
                 end).
  { unfold TranslationService.getApiKey, ServerKeyService.getApiKey.
    pose proof (server_key_agrees net) as H.
    destruct (VITE_GEMINI_API_KEY net) as [[|c k]|]; try discriminate;
      destruct (TranslationService.getApiKey_try net),
               (ServerKeyService.getApiKey_try net); auto. }
  unfold TranslationService.translateText, ServerKeyService.translateText,
    TranslationService.translateText_try, ServerKeyService.translateText_try,
    bind.
  destruct (TranslationService.getApiKey net),
           (ServerKeyService.getApiKey net); try contradiction;
    subst; reflexivity.
Qed.

Lemma server_key_witness :
  ServerKeyService.translateText
    {| VITE_GEMINI_API_KEY := None;
       key_fetch := FetchResponse 200 (Some (JObj [(js "apiKey", JStr (js "k"))]));
       api_fetch := FetchResponse 200 (Some heard) |}
    (request en_es hello)
  = {| translatedText := js "Hola"; confidence := 19 # 20 |}.
Proof.
  rewrite <- (agrees_with_server_key_version
                {| VITE_GEMINI_API_KEY := None;
                   key_fetch :=
                     FetchResponse 200
                       (Some (JObj [(js "apiKey", JStr (js "k"))]));
                   api_fetch := FetchResponse 200 (Some heard) |}
                (request en_es hello) eq_refl).
  reflexivity.
Defined.

(** ** More on the hook *)

(** What every step keeps, every run keeps. *)
Lemma run_preserves (P : State -> Prop) :
  (forall s i, P s -> P (Hook.step s i)) ->
  forall inputs s, P s -> P (Hook.run s inputs).
Proof.
  intros Hstep. induction inputs as [|i inputs IH]; intros s Hs; [exact Hs|].
  change (Hook.run s (i :: inputs)) with (Hook.run (Hook.step s i) inputs).
  apply IH, Hstep, Hs.
Qed.

Lemma spoken_found (id : nat) (fs : list (nat * frame)) (text : jsstring)
  (tr : TranslationResponse) (r : VoiceTranslationResult) :
  find_frame id fs = Some (AwaitSynthesis text tr r) ->
  existsb is_spoken fs = true.
Proof.
  induction fs as [|[j f] fs IH]; cbn; [discriminate|].
  destruct (Nat.eqb j id).
  - intros H. injection H as ->. reflexivity.
  - intros H. rewrite (IH H). apply orb_true_r.
Qed.

Lemma not_spoken_remove (id : nat) (fs : list (nat * frame)) :
  existsb is_spoken fs = false ->
  existsb is_spoken (remove_frame id fs) = false.
Proof.
  induction fs as [|[j f] fs IH]; cbn; [reflexivity|].
  intros H. apply orb_false_iff in H as [Hf Hfs].
  destruct (Nat.eqb j id); cbn; [exact Hfs|].
  now rewrite Hf, IH.
Qed.

Lemma not_spoken_suspend (fs : list (nat * frame)) (n : nat)
  (text : jsstring) (c : Q) :
  existsb is_spoken fs = false ->
  existsb is_spoken (fs ++ [(n, AwaitTranslation text c)])
  = false.
Proof. intros H. rewrite existsb_app, H. reflexivity. Qed.

Lemma no_synthesis_step (s : State) (i : input) :
  has_synthesis (platform s) = false
  /\ completions (log s) = [] /\ utterances (log s) = []
  /\ existsb is_spoken (frames s) = false ->
  has_synthesis (platform (Hook.step s i)) = false
  /\ completions (log (Hook.step s i)) = []
  /\ utterances (log (Hook.step s i)) = []
  /\ existsb is_spoken (frames (Hook.step s i)) = false.
Proof.
  destruct s as [p [rec syn] [l t sp] ac rz fs n q lg]; cbn.
  intros (-> & Hc & Hu & Hfs).
  destruct i; exec; repeat case_split; split_log;
    unfold completions, utterances in Hc, Hu; rewrite ?Hc, ?Hu;
    auto using not_spoken_remove, not_spoken_suspend.
  all: match goal with
       | H : find_frame _ _ = Some (AwaitSynthesis _ _ _) |- _ =>
           apply spoken_found in H; congruence
       end.
Qed.

(** X9: on a browser without speech synthesis the hook never delivers a
    result and never speaks, whatever is called and whatever happens:
    every translation, also of a typed text, ends in the [catch] block of
    [translateAndSpeak]. *)
Theorem no_synthesis_no_result
  (p : Props) (pf : Platform) (inputs : list input) :
  has_synthesis pf = false ->
  completions (log (Hook.run (Hook.init p pf) inputs)) = []
  /\ utterances (log (Hook.run (Hook.init p pf) inputs)) = [].
Proof.
  intros Hsyn.
  pose proof (run_preserves _ no_synthesis_step inputs (Hook.init p pf))
    as H.
  destruct H as (_ & Hc & Hu & _); [now repeat split|].
  split; assumption.
Qed.

(** A text is typed on a browser that can listen but not speak. *)
Lemma no_synthesis_witness :
  has_synthesis {| has_recognition := true; has_synthesis := false |} = false
  /\ completions
       (log (Hook.run
               (Hook.init en_es
                  {| has_recognition := true; has_synthesis := false |})
               [TranslateText hello; TranslationSettled 0 (answers heard)]))
     = []
  /\ errors
       (log (Hook.run
               (Hook.init en_es
                  {| has_recognition := true; has_synthesis := false |})
               [TranslateText hello; TranslationSettled 0 (answers heard)]))
     = [js "Speech synthesis not supported in this browser"].
Proof.
  split; [reflexivity|]. split; [|reflexivity].
  exact (proj1 (no_synthesis_no_result en_es
                  {| has_recognition := true; has_synthesis := false |}
                  [TranslateText hello; TranslationSettled 0 (answers heard)]
                  eq_refl)).
Defined.

Lemma unsupported_step (s : State) (i : input) :
  SpeechService.isSupported s = false
  /\ captures (log s) = [] /\ isListening (flags s) = false
  /\ recognizer s = None ->
  SpeechService.isSupported (Hook.step s i) = false
  /\ captures (log (Hook.step s i)) = []
  /\ isListening (flags (Hook.step s i)) = false
  /\ recognizer (Hook.step s i) = None.
Proof.
  destruct s as [p [rec syn] [l t sp] ac rz fs n q lg];
    unfold SpeechService.isSupported; cbn.
  intros (Hsup & Hc & -> & ->).
  destruct rec, syn; try discriminate;
    destruct i; exec; repeat case_split; split_log;
    unfold captures in Hc; rewrite ?Hc; auto.
Qed.

(** X10: on a browser that lacks speech recognition or speech synthesis
    the hook never listens: no capture is ever started and [isListening]
    is never set, whatever is called.  (A missing synthesis disables
    listening as well, since [isSupported] asks for both.) *)
Theorem unsupported_never_listens
  (p : Props) (pf : Platform) (inputs : list input) :
  has_recognition pf && has_synthesis pf = false ->
  captures (log (Hook.run (Hook.init p pf) inputs)) = []
  /\ isListening (flags (Hook.run (Hook.init p pf) inputs)) = false.
Proof.
  intros Hsup.
  pose proof (run_preserves _ unsupported_step inputs (Hook.init p pf)) as H.
  destruct H as (_ & Hc & Hl & _); [now repeat split|].
  split; assumption.
Qed.

(** The button is pressed twice on a browser that cannot speak. *)
Lemma unsupported_witness :
  has_recognition {| has_recognition := true; has_synthesis := false |}
  && has_synthesis {| has_recognition := true; has_synthesis := false |}
  = false
  /\ Hook.observe
       (Hook.init en_es {| has_recognition := true; has_synthesis := false |})
       [StartListening; StartListening]
     = [Hook.idle; Hook.idle]
  /\ captures
       (log (Hook.run
               (Hook.init en_es
                  {| has_recognition := true; has_synthesis := false |})
               [StartListening; StartListening]))
     = [].
Proof.
  split; [reflexivity|]. split; [reflexivity|].
  exact (proj1 (unsupported_never_listens en_es
                  {| has_recognition := true; has_synthesis := false |}
                  [StartListening; StartListening] eq_refl)).
Defined.

(** *** Flags and what is in flight *)

Arguments is_empty : simpl never.

Lemma spoken_replace (id : nat) (fs : list (nat * frame)) (f : frame)
  (text : jsstring) (tr : TranslationResponse) (r : VoiceTranslationResult) :
  find_frame id fs = Some f ->
  existsb is_spoken
    (replace_frame id (AwaitSynthesis text tr r) fs) = true.
Proof.
  induction fs as [|[j g] fs IH]; cbn; [discriminate|].
  destruct (Nat.eqb j id); cbn; [reflexivity|].
  intros H. rewrite (IH H). apply orb_true_r.
Qed.

Lemma replace_is_empty (id : nat) (g : frame) (fs : list (nat * frame)) :
  is_empty (replace_frame id g fs) = is_empty fs.
Proof.
  destruct fs as [|[j f] fs]; cbn; [reflexivity|].
  now destruct (Nat.eqb j id).
Qed.

Lemma suspend_is_empty (fs : list (nat * frame)) (x : nat * frame) :
  is_empty (fs ++ [x]) = false.
Proof. now destruct fs. Qed.

Ltac frames_hyps :=
  repeat match goal with
    | H : context [is_empty (_ ++ [_])] |- _ =>
        rewrite suspend_is_empty in H
    | H : context [is_empty (replace_frame _ _ _)] |- _ =>
        rewrite replace_is_empty in H
    | H : context [existsb _ (_ ++ _)] |- _ => rewrite existsb_app in H
    | H : context [existsb is_spoken
                     (replace_frame ?id (AwaitSynthesis _ _ _) ?fs)],
      F : find_frame ?id ?fs = Some _ |- _ =>
        erewrite (spoken_replace id fs) in H by exact F
    end.

Lemma flags_justified_step (s : State) (i : input) :
  flags_justified s = true -> flags_justified (Hook.step s i) = true.
Proof.
  destruct s as [p [rec syn] [l t sp] ac rz fs n q lg].
  unfold flags_justified, capture_pending; cbn.
  intros H. apply andb_true_iff in H as [H Hsp].
  apply andb_true_iff in H as [Hl Ht].
  destruct l, t, sp, i; cbn in Hl, Ht, Hsp; exec;
    rewrite ?suspend_is_empty, ?existsb_app, ?Hsp; cbn;
    repeat case_split;
    rewrite ?replace_is_empty, ?suspend_is_empty, ?existsb_app, ?orb_false_r;
    try (erewrite spoken_replace by eassumption);
    frames_hyps;
    cbn in *; rewrite ?Hl, ?Ht, ?Hsp; cbn; auto; try congruence.
  all: match goal with
       | H : is_empty ?l = true, H' : negb (is_empty ?l) = true |- _ =>
           rewrite H in H'; discriminate
       end.
Qed.

(** X11: a flag is set only while the hook waits for something.  In
    every state the hook can reach, whatever is called and whatever the
    browser and the network do, [isListening] is set only while the
    promise of the latest [recognizeSpeech] call is pending,
    [isTranslating] only while an activation of [translateAndSpeak] is
    suspended, and [isSpeaking] only while one is suspended on its
    playback: once no promise is pending and no activation is suspended,
    the flags are idle.  (The converse is up to the browser: a flag stays
    set for as long as the event the hook waits for does not arrive.) *)
Theorem flags_are_justified
  (p : Props) (pf : Platform) (inputs : list input) :
  let s := Hook.run (Hook.init p pf) inputs in
  flags_justified s = true
  /\ if negb (capture_pending s) && is_empty (frames s)
     then flags s = Hook.idle
     else True.
Proof.
  intros s.
  assert (H : flags_justified s = true).
  { apply (run_preserves (fun s => flags_justified s = true)
             flags_justified_step).
    reflexivity. }
  split; [exact H|].
  unfold flags_justified in H.
  destruct (capture_pending s); [exact I|].
  destruct (frames s); [|exact I]. cbn in *.
  destruct (flags s) as [[] [] []]; cbn in *; try discriminate.
  reflexivity.
Qed.

(** *** What reaches the callbacks *)

Lemma speech_reasons_step (thrown : list jsstring) (s : State) (i : input) :
  incl (start_exceptions [i]) thrown ->
  Forall (speech_reason thrown) (errors (log s)) ->
  Forall (speech_reason thrown) (errors (log (Hook.step s i))).
Proof.
  destruct s as [p [rec syn] [l t sp] ac rz fs n q lg]; cbn.
  intros Hi H. unfold errors in H.
  destruct i; cbn in Hi; exec; repeat case_split; split_log;
    rewrite ?Forall_app; repeat split; auto;
    repeat (apply Forall_cons || apply Forall_nil);
    unfold speech_reason, SpeechService.synthesis_error;
    first [ left; reflexivity
          | right; left; reflexivity
          | right; right; left; eexists; reflexivity
          | right; right; right; left; eexists; reflexivity
          | right; right; right; right; apply Hi; now left ].
Qed.

Lemma speech_reasons_run (thrown : list jsstring) (inputs : list input) :
  forall s,
    incl (start_exceptions inputs) thrown ->
    Forall (speech_reason thrown) (errors (log s)) ->
    Forall (speech_reason thrown) (errors (log (Hook.run s inputs))).
Proof.
  induction inputs as [|i inputs IH]; intros s Hi Hs; [exact Hs|].
  change (Hook.run s (i :: inputs)) with (Hook.run (Hook.step s i) inputs).
  apply IH.
  - intros m Hm. apply Hi. destruct i; cbn; auto.
  - apply speech_reasons_step; [|exact Hs].
    intros m Hm. apply Hi. destruct i; cbn in *; try contradiction.
    destruct Hm as [<- | []]. now left.
Qed.

(** X12: whatever is called and whatever happens, every reason the hook
    hands to the error callback is one of its four speech reasons (speech
    is not supported, speech synthesis is not supported, a recognition
    error or a synthesis error with the code of the browser) or the
    message of an exception that [recognition.start()] has thrown.  A
    failure of the translator never reaches the error callback. *)
Theorem only_speech_errors_are_reported
  (p : Props) (pf : Platform) (inputs : list input) :
  Forall (speech_reason (start_exceptions inputs))
    (errors (log (Hook.run (Hook.init p pf) inputs))).
Proof.
  apply speech_reasons_run; [apply incl_refl | constructor].
Qed.

Lemma find_frame_in (id : nat) (fs : list (nat * frame)) (f : frame) :
  find_frame id fs = Some f -> In (id, f) fs.
Proof.
  induction fs as [|[j g] fs IH]; cbn; [discriminate|].
  destruct (Nat.eqb j id) eqn:E.
  - intros H. injection H as ->. apply Nat.eqb_eq in E as ->. now left.
  - intros H. right. exact (IH H).
Qed.

Lemma in_remove_frame (id : nat) (fs : list (nat * frame))
  (x : nat * frame) :
  In x (remove_frame id fs) -> In x fs.
Proof.
  induction fs as [|[j g] fs IH]; cbn; [auto|].
  destruct (Nat.eqb j id); cbn; [auto|]. intros [H|H]; auto.
Qed.

Lemma in_replace_frame (id : nat) (g : frame) (fs : list (nat * frame))
  (j : nat) (f : frame) :
  In (j, f) (replace_frame id g fs) -> f = g \/ In (j, f) fs.
Proof.
  induction fs as [|[k h] fs IH]; cbn; [auto|].
  destruct (Nat.eqb k id); cbn.
  - intros [H|H]; [left; congruence | auto].
  - intros [H|H]; [auto|]. destruct (IH H); auto.
Qed.

Lemma delivered_ok_app (p : Props) (l l' : list effect)
  (r : VoiceTranslationResult) :
  delivered_ok p l r -> delivered_ok p (l ++ l') r.
Proof.
  unfold delivered_ok, utterances. intros (Hf & Ht & Hc & Hu).
  repeat split; auto. rewrite pick_app, map_app. apply in_or_app. now left.
Qed.

Lemma utterances_in (u : Utterance) (l : list effect) :
  In (Speak u) l -> In u (utterances l).
Proof.
  unfold utterances. induction l as [|e l IH]; cbn; [auto|].
  intros [->|H]; [now left|].
  destruct e; auto. right. auto.
Qed.

Lemma make_result_ok (p : Props) (l : list effect) (text : jsstring) (c : Q)
  (net : network) (req : TranslationRequest) (u : Utterance) :
  In (Speak u) l ->
  utt_text u = translatedText (TranslationService.translateText net req) ->
  delivered_ok p l
    (Hook.make_result p text c (TranslationService.translateText net req)).
Proof.
  intros Hin Hu. unfold delivered_ok. cbn.
  repeat split.
  - eapply Qle_trans; [apply Math_min_le_r|].
    destruct (translateText_confidence net req) as [-> | ->];
      [apply Qle_refl | discriminate].
  - rewrite <- Hu. apply in_map. now apply utterances_in.
Qed.

Lemma deliveries_extend (p : Props) (lg new : list effect)
  (fs fs' : list (nat * frame)) :
  Forall (delivered_ok p lg) (completions lg) ->
  (forall id text tr r,
     In (id, AwaitSynthesis text tr r) fs -> delivered_ok p lg r) ->
  Forall (delivered_ok p (lg ++ new)) (completions new) ->
  (forall id text tr r,
     In (id, AwaitSynthesis text tr r) fs' ->
     In (id, AwaitSynthesis text tr r) fs \/ delivered_ok p (lg ++ new) r) ->
  Forall (delivered_ok p (lg ++ new)) (completions (lg ++ new))
  /\ (forall id text tr r,
        In (id, AwaitSynthesis text tr r) fs' ->
        delivered_ok p (lg ++ new) r).
Proof.
  intros Hc Hf Hnew Hfs'. split.
  - unfold completions. rewrite pick_app. apply Forall_app. split.
    + eapply Forall_impl; [|exact Hc]. intros r. apply delivered_ok_app.
    + exact Hnew.
  - intros id text tr r Hin. destruct (Hfs' id text tr r Hin) as [H|H].
    + apply delivered_ok_app. eapply Hf; eassumption.
    + exact H.
Qed.

(** The results delivered and the results waiting for the end of their
    playback. *)
Lemma deliveries_step (p : Props) (s : State) (i : input) :
  props s = p
  /\ Forall (delivered_ok p (log s)) (completions (log s))
  /\ (forall id text tr r,
        In (id, AwaitSynthesis text tr r) (frames s) ->
        delivered_ok p (log s) r) ->
  props (Hook.step s i) = p
  /\ Forall (delivered_ok p (log (Hook.step s i)))
       (completions (log (Hook.step s i)))
  /\ (forall id text tr r,
        In (id, AwaitSynthesis text tr r) (frames (Hook.step s i)) ->
        delivered_ok p (log (Hook.step s i)) r).
Proof.
  destruct s as [p0 [rec syn] [l t sp] ac rz fs n q lg]; cbn.
  intros (-> & Hc & Hf).
  destruct i; exec; repeat case_split;
    (split; [reflexivity|]); rewrite <- ?app_assoc;
    try (split; assumption);
    (apply (deliveries_extend p lg _ fs); [assumption | assumption | |]).
  all: try (unfold completions; rewrite ?pick_app;
            rewrite ?console_is_silent by reflexivity; cbn;
            first [ apply Forall_nil
                  | apply Forall_cons; [|apply Forall_nil];
                    apply delivered_ok_app; eapply Hf;
                    eapply find_frame_in; eassumption ]).
  all: intros j text' tr' r' Hin.
  all: try (left; exact Hin).
  all: try (left; eapply in_remove_frame; exact Hin).
  all: try (apply in_app_or in Hin as [Hin|[Hin|[]]];
            [left; exact Hin | discriminate Hin]).
  apply in_replace_frame in Hin as [E|Hin]; [right | left; exact Hin].
  injection E as -> -> ->.
  eapply make_result_ok.
  - apply in_or_app. right. apply in_or_app. right. right. now left.
  - reflexivity.
Qed.

(** X13: every result the hook ever hands to the completion callback,
    whatever was called and whatever happened before, carries the two
    languages of the props, has a confidence of at most 0.95, and has a
    translated text that was handed to playback before: nothing is
    delivered that was not spoken. *)
Theorem deliveries_are_sound
  (p : Props) (pf : Platform) (inputs : list input) :
  Forall (delivered_ok p (log (Hook.run (Hook.init p pf) inputs)))
    (completions (log (Hook.run (Hook.init p pf) inputs))).
Proof.
  pose proof (run_preserves _ (deliveries_step p) inputs (Hook.init p pf))
    as H.
  cbv beta in H. destruct H as (_ & Hc & _); [|exact Hc].
  split; [reflexivity|]. split; [apply Forall_nil|].
  intros id text tr r [].
Qed.

(** *** The ends of playback *)

(** X14: when the playback of an activation fails, the run ends: both
    [isTranslating] and [isSpeaking] are cleared, the error callback gets
    the reason once, no result is delivered, and the toast that reports
    the playback failure is titled "Translation failed". *)
Theorem playback_failure_ends_run
  (s : State) (id : nat) (text : jsstring) (tr : TranslationResponse)
  (r : VoiceTranslationResult) (code : jsstring) :
  find_frame id (frames s) = Some (AwaitSynthesis text tr r) ->
  let s' := Hook.step s (UtteranceError id code) in
  let reason := js "Speech synthesis error: " ++ code in
  flags s' = {| isListening := isListening (flags s);
                isTranslating := false; isSpeaking := false |}
  /\ log s' = log s ++ [SetIsTranslating false; SetIsSpeaking false;
                        OnError reason;
                        Toast (js "Translation failed") reason true;
                        SetIsTranslating false]
  /\ errors (log s') = errors (log s) ++ [reason]
  /\ completions (log s') = completions (log s)
  /\ frames s' = remove_frame id (frames s).
Proof.
  destruct s as [p [rec syn] [l t sp] ac rz fs n q lg]; cbn.
  intros Hf. exec. rewrite Hf. cbn. split_log.
  repeat split.
Qed.

Lemma playback_failure_witness :
  find_frame 0
    (frames (Hook.step captured (TranslationSettled 0 (answers heard))))
  = Some (AwaitSynthesis hello
            {| translatedText := js "Hola"; confidence := 19 # 20 |}
            {| originalText := hello; vt_translatedText := js "Hola";
               fromLanguage := js "en-US"; toLanguage := js "es-ES";
               vt_confidence := 9 # 10 |})
  /\ flags (Hook.run captured
              [TranslationSettled 0 (answers heard);
               UtteranceError 0 (js "audio-busy")])
     = Hook.idle.
Proof.
  split; [reflexivity|].
  exact (proj1 (playback_failure_ends_run
                  (Hook.step captured (TranslationSettled 0 (answers heard)))
                  0 hello
                  {| translatedText := js "Hola"; confidence := 19 # 20 |}
                  {| originalText := hello; vt_translatedText := js "Hola";
                     fromLanguage := js "en-US"; toLanguage := js "es-ES";
                     vt_confidence := 9 # 10 |}
                  (js "audio-busy") eq_refl)).
Defined.

(** X15: [stopSpeaking()] ends nothing by itself.  It clears
    [isSpeaking] only: [isTranslating] stays as it is, the activation
    stays suspended and no callback fires.  The run ends when the event
    of the utterance arrives, and then as if it had not been stopped: its
    end delivers the result to the completion callback, its failure goes
    to the error callback. *)
Theorem stopSpeaking_ends_nothing
  (s : State) (id : nat) (text : jsstring) (tr : TranslationResponse)
  (r : VoiceTranslationResult) (code : jsstring) :
  find_frame id (frames s) = Some (AwaitSynthesis text tr r) ->
  let s1 := Hook.step s StopSpeaking in
  flags s1 = {| isListening := isListening (flags s);
                isTranslating := isTranslating (flags s);
                isSpeaking := false |}
  /\ frames s1 = frames s
  /\ completions (log s1) = completions (log s)
  /\ errors (log s1) = errors (log s)
  /\ completions (log (Hook.step s1 (UtteranceEnd id)))
     = completions (log s) ++ [r]
  /\ errors (log (Hook.step s1 (UtteranceError id code)))
     = errors (log s) ++ [js "Speech synthesis error: " ++ code].
Proof.
  destruct s as [p [rec syn] [l t sp] ac rz fs n q lg]; cbn.
  intros Hf. exec. repeat case_split; split_log; repeat split;
    congruence.
Qed.

Lemma stopSpeaking_witness :
  flags (Hook.run captured
           [TranslationSettled 0 (answers heard); StopSpeaking])
  = translating
  /\ completions
       (log (Hook.run captured
               [TranslationSettled 0 (answers heard); StopSpeaking;
                UtteranceEnd 0]))
     = [{| originalText := hello; vt_translatedText := js "Hola";
           fromLanguage := js "en-US"; toLanguage := js "es-ES";
           vt_confidence := 9 # 10 |}].
Proof.
  destruct (stopSpeaking_ends_nothing
              (Hook.step captured (TranslationSettled 0 (answers heard)))
              0 hello
              {| translatedText := js "Hola"; confidence := 19 # 20 |}
              {| originalText := hello; vt_translatedText := js "Hola";
                 fromLanguage := js "en-US"; toLanguage := js "es-ES";
                 vt_confidence := 9 # 10 |}
              [] eq_refl)
    as (Hflags & _ & _ & _ & Hc & _).
  split; [exact Hflags | exact Hc].
Defined.


(** *** The events of the recognizer *)

(** X16: when the recognizer delivers a transcript while the promise of
    the latest [recognizeSpeech] call is pending, that call of
    [startListening] resumes: it clears [isListening] and translates the
    transcript exactly when it has a code unit that is not whitespace;
    the text sent to the translator is the transcript as captured, not
    trimmed. *)
Theorem transcript_is_translated_iff_not_blank
  (s : State) (transcript : jsstring) (c : Q) :
  recognizer s = Some Pending ->
  let s' := Hook.step s (RecognitionResult transcript c) in
  isListening (flags s') = false
  /\ recognizer s' = Some Settled
  /\ translations (log s')
     = translations (log s)
       ++ (if blank transcript then []
           else [request (props s) transcript])
  /\ isTranslating (flags s')
     = (if blank transcript then isTranslating (flags s) else true)
  /\ frames s'
     = frames s
       ++ (if blank transcript then []
           else [(next_id s, AwaitTranslation transcript c)]).
Proof.
  destruct s as [p [rec syn] [l t sp] ac rz fs n q lg]; cbn.
  intros ->. exec. rewrite truthy_trim.
  destruct (blank transcript); cbn; split_log; repeat split.
Qed.

(** The recognizer hears ["  Hello "]. *)
Lemma transcript_witness :
  recognizer capturing = Some Pending
  /\ translations
       (log (Hook.step capturing (RecognitionResult (js "  Hello ") 1)))
     = [request en_es (js "  Hello ")].
Proof.
  split; [reflexivity|].
  exact (proj1 (proj2 (proj2 (transcript_is_translated_iff_not_blank
                                capturing (js "  Hello ") 1 eq_refl)))).
Defined.

(** X17: once the capture has settled, its promise cannot be settled
    again, but the handlers stay on the recognition object: a further
    result event only writes a line to the console, while a further
    error event still reaches the error callback, once, and clears
    [isListening]; neither starts or ends a run. *)
Theorem late_recognition_events
  (s : State) (transcript : jsstring) (c : Q) (code : jsstring) :
  recognizer s = Some Settled ->
  let s1 := Hook.step s (RecognitionResult transcript c) in
  let s2 := Hook.step s (RecognitionError code) in
  s1 = emit (ConsoleLog (js "Speech recognition result:")) s
  /\ log s2 = log s ++ [ConsoleError (js "Speech recognition error:");
                        OnError (js "Speech recognition error: " ++ code);
                        SetIsListening false]
  /\ flags s2 = {| isListening := false;
                   isTranslating := isTranslating (flags s);
                   isSpeaking := isSpeaking (flags s) |}
  /\ frames s2 = frames s
  /\ recognizer s2 = Some Settled.
Proof.
  destruct s as [p [rec syn] [l t sp] ac rz fs n q lg]; cbn.
  intros ->. exec. rewrite <- !app_assoc. repeat split.
Qed.

(** A second error event after a failed capture. *)
Lemma late_recognition_witness :
  recognizer (Hook.step capturing (RecognitionError (js "no-speech")))
  = Some Settled
  /\ errors
       (log (Hook.run capturing
               [RecognitionError (js "no-speech");
                RecognitionError (js "aborted")]))
     = [js "Speech recognition error: no-speech";
        js "Speech recognition error: no-speech";
        js "Speech recognition error: aborted"].
Proof.
  split; [reflexivity|].
  destruct (late_recognition_events
              (Hook.step capturing (RecognitionError (js "no-speech")))
              [] 1 (js "aborted") eq_refl)
    as (_ & Hlog & _).
  change (Hook.run capturing
            [RecognitionError (js "no-speech");
             RecognitionError (js "aborted")])
    with (Hook.step (Hook.step capturing (RecognitionError (js "no-speech")))
            (RecognitionError (js "aborted"))).
  rewrite Hlog. reflexivity.
Defined.

(** *** The button of the component *)



(** *** Requests and results *)

Lemma length_replace_frame (id : nat) (g : frame) (fs : list (nat * frame)) :
  List.length (replace_frame id g fs) = List.length fs.
Proof.
  induction fs as [|[j f] fs IH]; cbn; [reflexivity|].
  destruct (Nat.eqb j id); cbn; now rewrite ?IH.
Qed.

Lemma length_remove_frame (id : nat) (fs : list (nat * frame)) (f : frame) :
  find_frame id fs = Some f ->
  S (List.length (remove_frame id fs)) = List.length fs.
Proof.
  induction fs as [|[j g] fs IH]; cbn; [discriminate|].
  destruct (Nat.eqb j id); cbn; [reflexivity|].
  intros H. now rewrite (IH H).
Qed.

Lemma requests_step (s : State) (i : input) :
  (List.length (completions (log s)) + List.length (frames s)
   <= List.length (translations (log s)))%nat ->
  (List.length (completions (log (Hook.step s i)))
   + List.length (frames (Hook.step s i))
   <= List.length (translations (log (Hook.step s i))))%nat.
Proof.
  destruct s as [p [rec syn] [l t sp] ac rz fs n q lg]; cbn.
  intros H. unfold completions, translations in H.
  destruct i; exec; repeat case_split; split_log;
    rewrite ?length_app, ?length_replace_frame; cbn;
    try match goal with
      | F : find_frame ?id ?fs = Some _ |- context [remove_frame ?id ?fs] =>
          pose proof (length_remove_frame id fs _ F)
      end;
    lia.
Qed.

(** X19: the hook never delivers more results than it has sent requests
    to the translator: at every moment, the results delivered and the
    activations still suspended together are at most the calls of
    [translationService.translateText], so each call ends in at most one
    result. *)
Theorem results_never_exceed_requests
  (p : Props) (pf : Platform) (inputs : list input) :
  let s := Hook.run (Hook.init p pf) inputs in
  (List.length (completions (log s)) + List.length (frames s)
   <= List.length (translations (log s)))%nat.
Proof.
  apply (run_preserves
           (fun s => (List.length (completions (log s))
                      + List.length (frames s)
                      <= List.length (translations (log s)))%nat)
           requests_step).
  cbn. lia.
Qed.

(** *** What the services are asked *)

Lemma configured_step (p : Props) (s : State) (i : input) :
  props s = p /\ Forall (asked_as_configured p) (log s) ->
  props (Hook.step s i) = p
  /\ Forall (asked_as_configured p) (log (Hook.step s i)).
Proof.
  destruct s as [p0 [rec syn] [l t sp] ac rz fs n q lg]; cbn.
  intros [-> H].
  destruct i; exec; repeat case_split; (split; [reflexivity|]);
    rewrite ?Forall_app; repeat split; auto;
    repeat (apply Forall_cons || apply Forall_nil); cbn; auto.
  all: unfold Hook.translation_console;
    repeat match goal with
      | |- context [match ?x with _ => _ end] => destruct x
      end;
    repeat (apply Forall_cons || apply Forall_nil); exact I.
Qed.

(** X20: the hook passes its props through: whatever is called and
    whatever happens, every capture is started in the source language,
    every request to the translator carries the source and the target
    language, and every utterance is spoken in the target language
    ([en-US] if that is the empty string) at rate 0.9, pitch 1 and
    volume 0.8. *)
Theorem services_are_asked_as_configured
  (p : Props) (pf : Platform) (inputs : list input) :
  Forall (asked_as_configured p) (log (Hook.run (Hook.init p pf) inputs)).
Proof.
  pose proof (run_preserves _ (configured_step p) inputs (Hook.init p pf))
    as H.
  cbv beta in H. destruct H as [_ H]; [|exact H].
  split; [reflexivity | apply Forall_nil].
Qed.

(** *** A start that is refused *)

(** X22: a call of [startListening] whose [recognition.start()] throws
    takes the recognizer away from the capture in flight: the handlers on
    the recognition object now belong to the promise the exception has
    rejected, so a transcript that arrives afterwards only leaves a line
    on the console.  It is not translated and no activation is suspended
    for it. *)
Theorem refused_start_orphans_capture
  (s : State) (message transcript : jsstring) (c : Q) :
  SpeechService.isSupported s = true ->
  let s1 := Hook.step s (StartListeningThrows message) in
  let s2 := Hook.step s1 (RecognitionResult transcript c) in
  recognizer s1 = Some Settled
  /\ isListening (flags s1) = false
  /\ s2 = emit (ConsoleLog (js "Speech recognition result:")) s1
  /\ translations (log s2) = translations (log s)
  /\ frames s2 = frames s.
Proof.
  destruct s as [p [rec syn] [l t sp] ac rz fs n q lg];
    unfold SpeechService.isSupported; cbn.
  intros H. apply andb_true_iff in H as [-> ->].
  exec. split_log. repeat split.
Qed.

(** A capture is in flight, a second start is refused, and the recognizer
    then delivers ["Hello"]. *)
Lemma refused_start_witness :
  SpeechService.isSupported capturing = true
  /\ recognizer capturing = Some Pending
  /\ translations
       (log (Hook.run capturing
               [StartListeningThrows (js "recognition has already started");
                RecognitionResult hello (9 # 10)]))
     = [].
Proof.
  split; [reflexivity|]. split; [reflexivity|].
  exact (proj1 (proj2 (proj2 (proj2
           (refused_start_orphans_capture capturing
              (js "recognition has already started") hello (9 # 10)
              eq_refl))))).
Defined.

(** *** What the component never shows *)



